(** * ng-toastly: the toast lifecycle engine, its components and the
      animation orchestrator

    A shallow embedding of
    - [lib/services/toast.service.ts]          (module [ToastService]),
    - [lib/constants/toast.constants.ts]       (constants),
    - [lib/types/toast.type.ts], [toast-config.type.ts], [toast-error.type.ts],
    - [lib/components/toast-item], [lib/components/toast-container],
    - [lib/animations/animation.service.ts] and its presets.

    Conventions.  A JavaScript [number] that holds milliseconds, a percentage
    or a count is an integer ([Z]); [Date.now()] and the id counter are
    naturals ([N]).  A field [f?: T] is [option T].  The service mutates its
    own fields and the host's timer queue: both live in one [World] that the
    operations thread through a small state-and-exception monad, so that a
    [throw] is visible together with the state it leaves behind. *)

From Stdlib Require Import ZArith NArith QArith Lia Ascii.
From Stdlib Require Import DecimalString DecimalN DecimalZ.
From stdpp Require Import gmap strings list.

Local Open Scope string_scope.
Local Open Scope list_scope.
Local Open Scope Z_scope.

(* ===================================================================== *)
(** ** JavaScript primitives used by the sources *)
(* ===================================================================== *)

Module Js.

(** [`${n}`] for a non-negative integer. *)
Definition stringOfN (n : N) : string := NilZero.string_of_uint (N.to_uint n).

(** [`${z}`] for an integer. *)
Definition stringOfZ (z : Z) : string := NilZero.string_of_int (Z.to_int z).

(** [s.startsWith(p)]. *)
Fixpoint startsWith (s p : string) : bool :=
  match p, s with
  | EmptyString, _ => true
  | String _ _, EmptyString => false
  | String a p', String b s' => if Ascii.eqb a b then startsWith s' p' else false
  end.

(** [s.includes(p)]. *)
Fixpoint includes (s p : string) : bool :=
  startsWith s p ||
  match s with
  | EmptyString => false
  | String _ s' => includes s' p
  end.

(** The relative index of [Array.prototype.slice]: a negative index counts
    from the end, and both ends are clamped to [0 .. len]. *)
Definition relativeIndex (len i : Z) : Z :=
  if i <? 0 then Z.max (len + i) 0 else Z.min i len.

(** [l.slice(start, end)]; [end_ = None] is the one-argument call. *)
Definition slice {A} (l : list A) (start : Z) (end_ : option Z) : list A :=
  let len := Z.of_nat (length l) in
  let k := relativeIndex len start in
  let final := match end_ with
               | None => len
               | Some e => relativeIndex len e
               end in
  take (Z.to_nat (final - k)) (drop (Z.to_nat k) l).

(** [Math.max(a, b)]. *)
Definition mathMax (a b : Z) : Z := Z.max a b.

End Js.

(* ===================================================================== *)
(** ** Types: toast.type.ts, toast-config.type.ts, toast-error.type.ts *)
(* ===================================================================== *)

Inductive ToastType := Info | Success | Warning | Danger.
Inductive ToastTheme := Light | Dark.
Inductive ToastPosition :=
  TopRight | TopLeft | BottomRight | BottomLeft | TopCenter | BottomCenter.
Inductive ToastActionVariant := Primary | Secondary.

#[global] Instance ToastType_eq_dec : EqDecision ToastType.
Proof. solve_decision. Defined.
#[global] Instance ToastTheme_eq_dec : EqDecision ToastTheme.
Proof. solve_decision. Defined.
#[global] Instance ToastPosition_eq_dec : EqDecision ToastPosition.
Proof. solve_decision. Defined.

(** The string literal behind each member of the union types. *)
Definition typeName (t : ToastType) : string :=
  match t with
  | Info => "info" | Success => "success"
  | Warning => "warning" | Danger => "danger"
  end.

Definition positionName (p : ToastPosition) : string :=
  match p with
  | TopRight => "top-right" | TopLeft => "top-left"
  | BottomRight => "bottom-right" | BottomLeft => "bottom-left"
  | TopCenter => "top-center" | BottomCenter => "bottom-center"
  end.

(** Closures and template references are opaque to the engine: they are
    represented by a name. *)
Definition Callback := string.
Definition TemplateRef := string.

Record ToastAction := {
  label : string;
  onClick : Callback;
  variant : ToastActionVariant;
}.

(** [ToastPayload]: the caller's request. *)
Module Payload.
Record t := {
  message : string;
  title : option string;
  type : option ToastType;
  theme : option ToastTheme;
  durationMs : option Z;
  dismissible : option bool;
  actions : option (list ToastAction);
  styleClass : option string;
  iconTemplate : option TemplateRef;
  avatarUrl : option string;
  progressPercent : option Z;
  position : option ToastPosition;
}.

(** [{ message }]: every optional field left out. *)
Definition ofMessage (m : string) : t :=
  {| message := m; title := None; type := None; theme := None;
     durationMs := None; dismissible := None; actions := None;
     styleClass := None; iconTemplate := None; avatarUrl := None;
     progressPercent := None; position := None |}.
End Payload.

(** [Toast]: the engine's resolved record. *)
Module Toast.
Record t := {
  id : string;
  createdAt : N;
  message : string;
  title : option string;
  type : ToastType;
  theme : ToastTheme;
  durationMs : Z;
  dismissible : bool;
  actions : list ToastAction;
  styleClass : option string;
  iconTemplate : option TemplateRef;
  avatarUrl : option string;
  progressPercent : option Z;
  position : ToastPosition;
}.

(** [{ ...toast, progressPercent }]. *)
Definition withProgress (toast : t) (p : Z) : t :=
  {| id := id toast; createdAt := createdAt toast; message := message toast;
     title := title toast; type := type toast; theme := theme toast;
     durationMs := durationMs toast; dismissible := dismissible toast;
     actions := actions toast; styleClass := styleClass toast;
     iconTemplate := iconTemplate toast; avatarUrl := avatarUrl toast;
     progressPercent := Some p; position := position toast |}.
End Toast.

(** [ToastGlobalConfig], the fields the engine and the components read. *)
Module Config.
Record t := {
  position : ToastPosition;
  theme : ToastTheme;
  defaultDurationMs : Z;
  maximumVisibleToasts : Z;
  newestOnTop : bool;
  pauseOnHover : bool;
  dismissibleByDefault : bool;
  defaultType : ToastType;
}.

(** [ToastGlobalConfigPartial]. *)
Record partial := {
  position' : option ToastPosition;
  theme' : option ToastTheme;
  defaultDurationMs' : option Z;
  maximumVisibleToasts' : option Z;
  newestOnTop' : option bool;
  pauseOnHover' : option bool;
  dismissibleByDefault' : option bool;
  defaultType' : option ToastType;
}.

(** [{ ...defaults, ...provided }]. *)
Definition merge (d : t) (p : option partial) : t :=
  match p with
  | None => d
  | Some p =>
    {| position := default (position d) (position' p);
       theme := default (theme d) (theme' p);
       defaultDurationMs := default (defaultDurationMs d) (defaultDurationMs' p);
       maximumVisibleToasts :=
         default (maximumVisibleToasts d) (maximumVisibleToasts' p);
       newestOnTop := default (newestOnTop d) (newestOnTop' p);
       pauseOnHover := default (pauseOnHover d) (pauseOnHover' p);
       dismissibleByDefault :=
         default (dismissibleByDefault d) (dismissibleByDefault' p);
       defaultType := default (defaultType d) (defaultType' p) |}
  end.
End Config.

Inductive ToastErrorCode :=
| TOAST_NOT_FOUND
| INVALID_DURATION
| INVALID_PROGRESS_VALUE
| MAXIMUM_TOASTS_EXCEEDED
| INVALID_CONFIGURATION.

Record ToastError := {
  code : ToastErrorCode;
  errorMessage : string;
  details : option string;
}.

Definition createToastError (c : ToastErrorCode) (m : string)
  (d : option string) : ToastError :=
  {| code := c; errorMessage := m; details := d |}.

Definition TOAST_ERROR_MESSAGES (c : ToastErrorCode) : string :=
  match c with
  | TOAST_NOT_FOUND =>
    "The specified toast ID does not exist in the current toast collection."
  | INVALID_DURATION =>
    "Toast duration must be a non-negative number in milliseconds."
  | INVALID_PROGRESS_VALUE =>
    "Progress value must be between 0 and 100 inclusive."
  | MAXIMUM_TOASTS_EXCEEDED =>
    "Maximum number of visible toasts has been reached."
  | INVALID_CONFIGURATION => "Invalid toast configuration provided."
  end.

(* ===================================================================== *)
(** ** Constants: toast.constants.ts *)
(* ===================================================================== *)

Definition TOAST_AUTO_DISMISS_DELAY_MS : Z := 5000.
Definition TOAST_ANIMATION_DURATION_MS : Z := 300.
Definition TOAST_MINIMUM_DURATION_MS : Z := 1000.
Definition MAXIMUM_VISIBLE_TOASTS : Z := 5.
Definition PROGRESS_MINIMUM_PERCENT : Z := 0.
Definition PROGRESS_MAXIMUM_PERCENT : Z := 100.
Definition TOAST_ID_PREFIX : string := "toastly-".

Definition DEFAULT_TOAST_CONFIG : Config.t :=
  {| Config.position := BottomRight;
     Config.theme := Light;
     Config.defaultDurationMs := TOAST_AUTO_DISMISS_DELAY_MS;
     Config.maximumVisibleToasts := MAXIMUM_VISIBLE_TOASTS;
     Config.newestOnTop := true;
     Config.pauseOnHover := true;
     Config.dismissibleByDefault := true;
     Config.defaultType := Info |}.

(** [TOAST_ITEM_ROLES]: an object literal used as a map from type names to
    ARIA roles. *)
Definition TOAST_ITEM_ROLES : gmap string string :=
  <["info" := "status"]> (<["success" := "status"]>
  (<["warning" := "alert"]> (<["danger" := "alert"]> ∅))).

(* ===================================================================== *)
(** ** The world: the service's fields and the host's timer queue *)
(* ===================================================================== *)

(** A pending [setTimeout].  Every callback the service registers is
    [() => this.dismiss(toast.id)], so the closure is its [target] id. *)
Record Timeout := {
  handle : N;
  due : Z;
  target : string;
}.

Record World := {
  (* ToastService *)
  toastIdCounter : N;
  activeTimers : gmap string N;
  toastsSignal : list Toast.t;
  (* host: Date.now(), the timer queue, the next timer id *)
  clock : N;
  pending : list Timeout;
  nextHandle : N;
}.

Definition setCounter (c : N) (w : World) : World :=
  {| toastIdCounter := c; activeTimers := activeTimers w;
     toastsSignal := toastsSignal w; clock := clock w;
     pending := pending w; nextHandle := nextHandle w |}.

Definition setTimers (m : gmap string N) (w : World) : World :=
  {| toastIdCounter := toastIdCounter w; activeTimers := m;
     toastsSignal := toastsSignal w; clock := clock w;
     pending := pending w; nextHandle := nextHandle w |}.

Definition setToasts (l : list Toast.t) (w : World) : World :=
  {| toastIdCounter := toastIdCounter w; activeTimers := activeTimers w;
     toastsSignal := l; clock := clock w;
     pending := pending w; nextHandle := nextHandle w |}.

Definition setClock (c : N) (w : World) : World :=
  {| toastIdCounter := toastIdCounter w; activeTimers := activeTimers w;
     toastsSignal := toastsSignal w; clock := c;
     pending := pending w; nextHandle := nextHandle w |}.

Definition setPending (q : list Timeout) (w : World) : World :=
  {| toastIdCounter := toastIdCounter w; activeTimers := activeTimers w;
     toastsSignal := toastsSignal w; clock := clock w;
     pending := q; nextHandle := nextHandle w |}.

Definition setNextHandle (h : N) (w : World) : World :=
  {| toastIdCounter := toastIdCounter w; activeTimers := activeTimers w;
     toastsSignal := toastsSignal w; clock := clock w;
     pending := pending w; nextHandle := h |}.

(** A freshly constructed service in a host whose clock reads [t0]. *)
Definition initialWorld (t0 : N) : World :=
  {| toastIdCounter := 0; activeTimers := ∅; toastsSignal := [];
     clock := t0; pending := []; nextHandle := 1 |}.

(** *** The state-and-exception monad *)

Inductive Outcome (A : Type) :=
| Ok (a : A) (w : World)
| Throw (e : ToastError) (w : World).
Arguments Ok {A} a w.
Arguments Throw {A} e w.

Definition M (A : Type) : Type := World → Outcome A.

#[global] Instance M_ret : MRet M := λ A a w, Ok a w.
#[global] Instance M_bind : MBind M := λ A B f m w,
  match m w with
  | Ok a w' => f a w'
  | Throw e w' => Throw e w'
  end.

Definition throw {A} (e : ToastError) : M A := λ w, Throw e w.
Definition get : M World := λ w, Ok w w.
Definition modify (f : World → World) : M unit := λ w, Ok () (f w).

(** The world an outcome leaves behind, returned or thrown. *)
Definition worldOf {A} (o : Outcome A) : World :=
  match o with
  | Ok _ w => w
  | Throw _ w => w
  end.

(** The error code of a thrown outcome. *)
Definition thrownCode {A} (o : Outcome A) : option ToastErrorCode :=
  match o with
  | Ok _ _ => None
  | Throw e _ => Some (code e)
  end.

(** *** Host primitives *)

Module Host.

(** [Date.now()]. *)
Definition dateNow : M N := λ w, Ok (clock w) w.

(** [setTimeout(() => this.dismiss(id), delay)]: returns the new handle. *)
Definition setTimeout (id : string) (delay : Z) : M N := λ w,
  let h := nextHandle w in
  let entry := {| handle := h; due := Z.of_N (clock w) + Z.max 0 delay;
                  target := id |} in
  Ok h (setNextHandle (h + 1)%N (setPending (pending w ++ [entry]) w)).

(** The queue after [clearTimeout(h)]. *)
Definition cancel (h : N) (q : list Timeout) : list Timeout :=
  filter (λ e, handle e ≠ h) q.

(** [clearTimeout(h)]. *)
Definition clearTimeout (h : N) : M unit :=
  modify (λ w, setPending (cancel h (pending w)) w).

(** Time passes. *)
Definition advance (dt : N) : M unit :=
  modify (λ w, setClock (clock w + dt)%N w).

(** The entry of the queue with handle [h], when it is due. *)
Definition dueEntry (h : N) (w : World) : option Timeout :=
  List.find (λ e, bool_decide (handle e = h) && (due e <=? Z.of_N (clock w)))
    (pending w).

End Host.

(* ===================================================================== *)
(** ** toast.service.ts *)
(* ===================================================================== *)

(** [{ ...options, message, type }] of the convenience methods. *)
Definition spreadOptions (options : option Payload.t) (m : string)
  (ty : ToastType) : Payload.t :=
  let o := default (Payload.ofMessage m) options in
  {| Payload.message := m; Payload.title := Payload.title o;
     Payload.type := Some ty; Payload.theme := Payload.theme o;
     Payload.durationMs := Payload.durationMs o;
     Payload.dismissible := Payload.dismissible o;
     Payload.actions := Payload.actions o;
     Payload.styleClass := Payload.styleClass o;
     Payload.iconTemplate := Payload.iconTemplate o;
     Payload.avatarUrl := Payload.avatarUrl o;
     Payload.progressPercent := Payload.progressPercent o;
     Payload.position := Payload.position o |}.

Module ToastService.
Section WithConfig.

(** [this.globalConfig], merged from the defaults by the constructor. *)
Variable globalConfig : Config.t.

(** **** Derived signals *)

Definition toasts (w : World) : list Toast.t := toastsSignal w.

Definition visibleToasts (w : World) : list Toast.t :=
  let allToasts := toastsSignal w in
  let maxVisible := Config.maximumVisibleToasts globalConfig in
  if Config.newestOnTop globalConfig
  then Js.slice allToasts 0 (Some maxVisible)
  else Js.slice allToasts (- maxVisible) None.

Definition position : ToastPosition := Config.position globalConfig.

(** Modelled from the spec: the [pauseOnHover] signal of the service, which
    the components and their test doubles read but the service source at
    hand does not declare; it exposes the global [pauseOnHover] flag the way
    [position] exposes the global position. *)
Definition pauseOnHover : bool := Config.pauseOnHover globalConfig.

(** **** Validation *)

Definition validateProgressValue (progressPercent : Z) : M unit :=
  let isValidProgress :=
    (PROGRESS_MINIMUM_PERCENT <=? progressPercent) &&
    (progressPercent <=? PROGRESS_MAXIMUM_PERCENT) in
  if negb isValidProgress
  then throw (createToastError INVALID_PROGRESS_VALUE
                (TOAST_ERROR_MESSAGES INVALID_PROGRESS_VALUE)
                (Some ("Received: " +:+ Js.stringOfZ progressPercent +:+ "%")))
  else mret ().

Definition validatePayload (payload : Payload.t) : M unit :=
  match Payload.durationMs payload with
  | Some d =>
    if d <? 0
    then throw (createToastError INVALID_DURATION
                  (TOAST_ERROR_MESSAGES INVALID_DURATION)
                  (Some ("Received: " +:+ Js.stringOfZ d +:+ "ms")))
    else mret ()
  | None => mret ()
  end ;;
  match Payload.progressPercent payload with
  | Some p => validateProgressValue p
  | None => mret ()
  end.

(** **** Toast creation *)

(** [`${TOAST_ID_PREFIX}${Date.now()}-${this.toastIdCounter}`]. *)
Definition formatToastId (now counter : N) : string :=
  TOAST_ID_PREFIX +:+ Js.stringOfN now +:+ "-" +:+ Js.stringOfN counter.

Definition generateToastId : M string :=
  modify (λ w, setCounter (toastIdCounter w + 1)%N w) ;;
  now ← Host.dateNow;
  w ← get;
  mret (formatToastId now (toastIdCounter w)).

Definition resolveDuration (providedDurationMs : option Z) : Z :=
  match providedDurationMs with
  | None => Config.defaultDurationMs globalConfig
  | Some d =>
    if d =? 0 then 0
    else Js.mathMax d TOAST_MINIMUM_DURATION_MS
  end.

Definition createToastFromPayload (payload : Payload.t) : M Toast.t :=
  toastId ← generateToastId;
  let toastType :=
    default (Config.defaultType globalConfig) (Payload.type payload) in
  let durationMs := resolveDuration (Payload.durationMs payload) in
  let position :=
    default (Config.position globalConfig) (Payload.position payload) in
  now ← Host.dateNow;
  mret {| Toast.id := toastId;
          Toast.createdAt := now;
          Toast.message := Payload.message payload;
          Toast.title := Payload.title payload;
          Toast.type := toastType;
          Toast.theme :=
            default (Config.theme globalConfig) (Payload.theme payload);
          Toast.durationMs := durationMs;
          Toast.dismissible :=
            default (Config.dismissibleByDefault globalConfig)
                    (Payload.dismissible payload);
          Toast.actions := default [] (Payload.actions payload);
          Toast.styleClass := Payload.styleClass payload;
          Toast.iconTemplate := Payload.iconTemplate payload;
          Toast.avatarUrl := Payload.avatarUrl payload;
          Toast.progressPercent := Payload.progressPercent payload;
          Toast.position := position |}.

(** **** Collection management *)

Definition addToast (toast : Toast.t) : M unit :=
  modify (λ w,
    setToasts (if Config.newestOnTop globalConfig
               then toast :: toastsSignal w
               else toastsSignal w ++ [toast]) w).

Definition removeToast (toastId : string) : M unit :=
  modify (λ w,
    setToasts (filter (λ toast, Toast.id toast ≠ toastId) (toastsSignal w)) w).

(** **** Timer management *)

Definition clearTimerForToast (toastId : string) : M unit :=
  w ← get;
  match activeTimers w !! toastId with
  | Some timerId =>
    Host.clearTimeout timerId ;;
    modify (λ w, setTimers (delete toastId (activeTimers w)) w)
  | None => mret ()
  end.

Definition scheduleAutoDismissIfNeeded (toast : Toast.t) : M unit :=
  if Toast.durationMs toast <=? 0 then mret ()
  else
    timerId ← Host.setTimeout (Toast.id toast) (Toast.durationMs toast);
    modify (λ w, setTimers (<[Toast.id toast := timerId]> (activeTimers w)) w).

Definition clearAllTimers : M unit :=
  modify (λ w,
    setTimers ∅
      (setPending
         (foldr Host.cancel (pending w) (map_to_list (activeTimers w)).*2) w)).

(** **** Public API *)

Definition show (payload : Payload.t) : M string :=
  validatePayload payload ;;
  toast ← createToastFromPayload payload;
  addToast toast ;;
  scheduleAutoDismissIfNeeded toast ;;
  mret (Toast.id toast).

Definition info (message : string) (options : option Payload.t) : M string :=
  show (spreadOptions options message Info).
Definition success (message : string) (options : option Payload.t) : M string :=
  show (spreadOptions options message Success).
Definition warning (message : string) (options : option Payload.t) : M string :=
  show (spreadOptions options message Warning).
Definition danger (message : string) (options : option Payload.t) : M string :=
  show (spreadOptions options message Danger).

Definition dismiss (toastId : string) : M unit :=
  clearTimerForToast toastId ;;
  removeToast toastId.

Definition dismissAll : M unit :=
  clearAllTimers ;;
  modify (setToasts []).

Definition updateProgress (toastId : string) (progressPercent : Z) : M unit :=
  validateProgressValue progressPercent ;;
  modify (λ w,
    setToasts
      (map (λ toast,
              if bool_decide (Toast.id toast = toastId)
              then Toast.withProgress toast progressPercent
              else toast)
           (toastsSignal w)) w).

Definition pauseTimer (toastId : string) : M unit :=
  clearTimerForToast toastId.

Definition resumeTimer (toastId : string) : M unit :=
  w ← get;
  match List.find (λ t, bool_decide (Toast.id t = toastId)) (toastsSignal w) with
  | Some toast =>
    if 0 <? Toast.durationMs toast
    then scheduleAutoDismissIfNeeded toast
    else mret ()
  | None => mret ()
  end.

(** **** The host runs a timer callback

    When the entry with handle [h] is due the host takes it off its queue and
    calls the registered closure, [() => this.dismiss(toast.id)]; an entry
    that is not due, or not queued, does not run. *)
Definition timerFires (h : N) : M unit :=
  w ← get;
  match Host.dueEntry h w with
  | Some e =>
    Host.clearTimeout h ;;
    dismiss (target e)
  | None => mret ()
  end.

End WithConfig.
End ToastService.

(* ===================================================================== *)
(** ** The components: toast-item and toast-container *)
(* ===================================================================== *)

(** What a handler of a component does: it calls the injected service or
    emits on the component's [dismissed] output, nothing else.  A handler is
    the list of these, in order; the component tests observe exactly this
    list through their spies. *)
Inductive ServiceCall :=
| CallPauseTimer (toastId : string)
| CallResumeTimer (toastId : string)
| CallDismiss (toastId : string)
| EmitDismissed (toastId : string).

#[global] Instance ServiceCall_eq_dec : EqDecision ServiceCall.
Proof. solve_decision. Defined.

(** The calls carried out by the real service; an emitted event does not
    reach it. *)
Definition perform (c : ServiceCall) : M unit :=
  match c with
  | CallPauseTimer i => ToastService.pauseTimer i
  | CallResumeTimer i => ToastService.resumeTimer i
  | CallDismiss i => ToastService.dismiss i
  | EmitDismissed _ => mret ()
  end.

Fixpoint performAll (cs : list ServiceCall) : M unit :=
  match cs with
  | [] => mret ()
  | c :: cs' => perform c ;; performAll cs'
  end.

Module ToastItemComponent.
Section WithConfig.
Variable globalConfig : Config.t.

(** [TOAST_ITEM_ROLES[toastType] ?? 'status'], on the name of the type. *)
Definition roleOfName (toastType : string) : string :=
  default "status" (TOAST_ITEM_ROLES !! toastType).

Definition ariaRole (toast : Toast.t) : string :=
  roleOfName (typeName (Toast.type toast)).

Definition handleDismiss (toast : Toast.t) : list ServiceCall :=
  let toastId := Toast.id toast in
  [EmitDismissed toastId; CallDismiss toastId].

Definition handleMouseEnter (toast : Toast.t) : list ServiceCall :=
  if ToastService.pauseOnHover globalConfig
  then [CallPauseTimer (Toast.id toast)]
  else [].

Definition handleMouseLeave (toast : Toast.t) : list ServiceCall :=
  if ToastService.pauseOnHover globalConfig
  then [CallResumeTimer (Toast.id toast)]
  else [].

End WithConfig.
End ToastItemComponent.

Module ToastContainerComponent.
Section WithConfig.
Variable globalConfig : Config.t.

(** [this.position() ?? this.toastService.position()]. *)
Definition resolvedPosition (positionInput : option ToastPosition)
  : ToastPosition :=
  default (ToastService.position globalConfig) positionInput.

Definition filteredToasts (positionInput : option ToastPosition) (w : World)
  : list Toast.t :=
  let containerPosition := resolvedPosition positionInput in
  filter (λ toast, Toast.position toast = containerPosition)
         (ToastService.visibleToasts globalConfig w).

Definition handleMouseEnter (toastId : string) : list ServiceCall :=
  [CallPauseTimer toastId].

Definition handleMouseLeave (toastId : string) : list ServiceCall :=
  [CallResumeTimer toastId].

End WithConfig.
End ToastContainerComponent.

(** *** Pointer events on a rendered toast

    The container's template renders each toast as
    [<toastly-item [toast]="toast" (mouseenter)="handleMouseEnter(toast.id)"
    (mouseleave)="handleMouseLeave(toast.id)" />], and the item declares the
    host listeners [(mouseenter)] and [(mouseleave)] on the same element: a
    pointer event on a rendered toast runs the item's listener and the
    container's. *)
Module Rendered.
Section WithConfig.
Variable globalConfig : Config.t.

Definition mouseenter (toast : Toast.t) : list ServiceCall :=
  ToastItemComponent.handleMouseEnter globalConfig toast ++
  ToastContainerComponent.handleMouseEnter (Toast.id toast).

Definition mouseleave (toast : Toast.t) : list ServiceCall :=
  ToastItemComponent.handleMouseLeave globalConfig toast ++
  ToastContainerComponent.handleMouseLeave (Toast.id toast).

End WithConfig.
End Rendered.

(* ===================================================================== *)
(** ** Animations: animation.constants.ts, presets, animation.service.ts *)
(* ===================================================================== *)

Inductive AnimationPreset := Slide | Fade | Bounce | NoPreset.
Inductive AnimationDirection := DirLeft | DirRight | DirTop | DirBottom.

Definition ANIMATION_DEFAULT_DURATION_MS : Z := 300.
Definition ANIMATION_REDUCED_MOTION_DURATION_MS : Z := 100.
Definition ANIMATION_DEFAULT_EASING : string := "cubic-bezier(0.4, 0, 0.2, 1)".
Definition ANIMATION_BOUNCE_EASING : string :=
  "cubic-bezier(0.34, 1.56, 0.64, 1)".
Definition ANIMATION_SLIDE_DISTANCE_PX : Z := 100.
Definition ANIMATION_BOUNCE_SCALE_START : Q := 9 # 10.
Definition ANIMATION_BOUNCE_SCALE_OVERSHOOT : Q := 102 # 100.
Definition DEFAULT_ANIMATION_PRESET : AnimationPreset := Slide.
Definition REDUCED_MOTION_PRESET : AnimationPreset := Fade.

(** The value of a keyframe's [transform]: the CSS function the template
    string spells out. *)
Inductive Transform :=
| TranslateX (px : Z)
| TranslateY (px : Z)
| TranslateNone
| Scale (factor : Q).

Record Keyframe := {
  opacity : Z;
  transform : option Transform;
  offset : option Q;
}.

Record KeyframeOptions := {
  duration : Z;
  easing : string;
  fill : string;
}.

(** What a run does to the element. *)
Inductive ElementEffect :=
| Animate (keyframes : list Keyframe) (options : KeyframeOptions)
| SetOpacity (value : string)
| CallCustom (callback : Callback).

Definition AnimationRunner : Type :=
  AnimationDirection → Z → string → ElementEffect.

Record AnimationPresetDefinition := {
  enter : AnimationRunner;
  leave : AnimationRunner;
}.

Record CustomAnimation := {
  customEnter : option Callback;
  customLeave : option Callback;
}.

Definition mkOptions (durationMs : Z) (easingValue : string) : KeyframeOptions :=
  {| duration := durationMs; easing := easingValue; fill := "forwards" |}.

Definition fadeAnimation : AnimationPresetDefinition :=
  {| enter := λ _direction durationMs easingValue,
       Animate [ {| opacity := 0; transform := None; offset := None |};
                 {| opacity := 1; transform := None; offset := None |} ]
               (mkOptions durationMs easingValue);
     leave := λ _direction durationMs easingValue,
       Animate [ {| opacity := 1; transform := None; offset := None |};
                 {| opacity := 0; transform := None; offset := None |} ]
               (mkOptions durationMs easingValue) |}.

Definition getTranslateValue (direction : AnimationDirection) (distance : Z)
  : Transform :=
  match direction with
  | DirLeft => TranslateX (- distance)
  | DirRight => TranslateX distance
  | DirTop => TranslateY (- distance)
  | DirBottom => TranslateY distance
  end.

Definition slideAnimation : AnimationPresetDefinition :=
  {| enter := λ direction durationMs easingValue,
       let startTransform :=
         getTranslateValue direction ANIMATION_SLIDE_DISTANCE_PX in
       Animate [ {| opacity := 0; transform := Some startTransform;
                    offset := None |};
                 {| opacity := 1; transform := Some TranslateNone;
                    offset := None |} ]
               (mkOptions durationMs easingValue);
     leave := λ direction durationMs easingValue,
       let endTransform :=
         getTranslateValue direction ANIMATION_SLIDE_DISTANCE_PX in
       Animate [ {| opacity := 1; transform := Some TranslateNone;
                    offset := None |};
                 {| opacity := 0; transform := Some endTransform;
                    offset := None |} ]
               (mkOptions durationMs easingValue) |}.

Definition bounceAnimation : AnimationPresetDefinition :=
  {| enter := λ _direction durationMs _easing,
       Animate [ {| opacity := 0;
                    transform := Some (Scale ANIMATION_BOUNCE_SCALE_START);
                    offset := None |};
                 {| opacity := 1;
                    transform := Some (Scale ANIMATION_BOUNCE_SCALE_OVERSHOOT);
                    offset := Some (7 # 10) |};
                 {| opacity := 1; transform := Some (Scale 1);
                    offset := None |} ]
               (mkOptions durationMs ANIMATION_BOUNCE_EASING);
     leave := λ _direction durationMs easingValue,
       Animate [ {| opacity := 1; transform := Some (Scale 1);
                    offset := None |};
                 {| opacity := 0;
                    transform := Some (Scale ANIMATION_BOUNCE_SCALE_START);
                    offset := None |} ]
               (mkOptions durationMs easingValue) |}.

Definition PRESET_MAP (p : AnimationPreset) : option AnimationPresetDefinition :=
  match p with
  | Slide => Some slideAnimation
  | Fade => Some fadeAnimation
  | Bounce => Some bounceAnimation
  | NoPreset => None
  end.

(** The browser, as far as [detectReducedMotion] looks at it: [window] may be
    undefined, and [window.matchMedia] may not be a function. *)
Record Window := {
  matchMedia : option (string → bool);
}.

Module AnimationService.

Definition detectReducedMotion (window : option Window) : bool :=
  match window with
  | None => false
  | Some w =>
    match matchMedia w with
    | None => false
    | Some matches => matches "(prefers-reduced-motion: reduce)"
    end
  end.

(** The service holds one signal, set when it is constructed. *)
Record t := {
  prefersReducedMotion : bool;
}.

Definition create (window : option Window) : t :=
  {| prefersReducedMotion := detectReducedMotion window |}.

Definition getDirectionFromPosition (position : ToastPosition)
  : AnimationDirection :=
  let position := positionName position in
  if Js.includes position "left" then DirLeft
  else if Js.includes position "right" then DirRight
  else if Js.startsWith position "top" then DirTop
  else DirBottom.

Definition runEnterAnimation (this : t) (position : ToastPosition)
  (preset : option AnimationPreset) (custom : option CustomAnimation)
  (durationMs : option Z) (easing : option string) : list ElementEffect :=
  let preset := default DEFAULT_ANIMATION_PRESET preset in
  match custom ≫= customEnter with
  | Some callback => [CallCustom callback]
  | None =>
    let effectivePreset :=
      if prefersReducedMotion this then REDUCED_MOTION_PRESET else preset in
    match effectivePreset with
    | NoPreset => [SetOpacity "1"]
    | _ =>
      match PRESET_MAP effectivePreset with
      | None => [SetOpacity "1"]
      | Some presetDef =>
        let direction := getDirectionFromPosition position in
        let duration :=
          if prefersReducedMotion this
          then ANIMATION_REDUCED_MOTION_DURATION_MS
          else default ANIMATION_DEFAULT_DURATION_MS durationMs in
        let easingValue := default ANIMATION_DEFAULT_EASING easing in
        [enter presetDef direction duration easingValue]
      end
    end
  end.

Definition runLeaveAnimation (this : t) (position : ToastPosition)
  (preset : option AnimationPreset) (custom : option CustomAnimation)
  (durationMs : option Z) (easing : option string) : list ElementEffect :=
  let preset := default DEFAULT_ANIMATION_PRESET preset in
  match custom ≫= customLeave with
  | Some callback => [CallCustom callback]
  | None =>
    let effectivePreset :=
      if prefersReducedMotion this then REDUCED_MOTION_PRESET else preset in
    match effectivePreset with
    | NoPreset => [SetOpacity "0"]
    | _ =>
      match PRESET_MAP effectivePreset with
      | None => [SetOpacity "0"]
      | Some presetDef =>
        let direction := getDirectionFromPosition position in
        let duration :=
          if prefersReducedMotion this
          then ANIMATION_REDUCED_MOTION_DURATION_MS
          else default ANIMATION_DEFAULT_DURATION_MS durationMs in
        let easingValue := default ANIMATION_DEFAULT_EASING easing in
        [leave presetDef direction duration easingValue]
      end
    end
  end.

Definition isReducedMotion (this : t) : bool := prefersReducedMotion this.

End AnimationService.

(* ===================================================================== *)
(** ** Runs of the engine *)
(* ===================================================================== *)

(** Everything that can happen to the engine: a call of the public API, a
    due timer whose callback the host runs, or time passing. *)
Inductive Action :=
| Show (payload : Payload.t)
| Dismiss (toastId : string)
| DismissAll
| UpdateProgress (toastId : string) (progressPercent : Z)
| PauseTimer (toastId : string)
| ResumeTimer (toastId : string)
| TimerFires (h : N)
| Advance (dt : N).

Section Runs.
Variable globalConfig : Config.t.

Definition run (a : Action) : M unit :=
  match a with
  | Show payload => ToastService.show globalConfig payload ;; mret ()
  | Dismiss i => ToastService.dismiss i
  | DismissAll => ToastService.dismissAll
  | UpdateProgress i p => ToastService.updateProgress i p
  | PauseTimer i => ToastService.pauseTimer i
  | ResumeTimer i => ToastService.resumeTimer i
  | TimerFires h => ToastService.timerFires h
  | Advance dt => Host.advance dt
  end.

(** The world after an action; a call that throws leaves the world it threw
    in. *)
Definition step (w : World) (a : Action) : World := worldOf (run a w).

Definition steps (w : World) (l : list Action) : World := foldl step w l.

Inductive reachable : World → Prop :=
| reachable_init t0 : reachable (initialWorld t0)
| reachable_step w a : reachable w → reachable (step w a).

End Runs.


(** The ids of the tracked toasts, in collection order. *)
Definition ids (w : World) : list string := Toast.id <$> toastsSignal w.

(** An id the service has handed out so far. *)
Definition generated (counter : N) (i : string) : Prop :=
  ∃ now c, i = ToastService.formatToastId now c ∧ (1 ≤ c ≤ counter)%N.

(** What every reachable world satisfies. *)
Record Inv (w : World) : Prop := {
  inv_ids : ∀ t, t ∈ toastsSignal w → generated (toastIdCounter w) (Toast.id t);
  inv_nodup : NoDup (ids w);
  inv_targets : ∀ e, e ∈ pending w → generated (toastIdCounter w) (target e);
  inv_positive : ∀ e t, e ∈ pending w → t ∈ toastsSignal w →
                 Toast.id t = target e → 0 < Toast.durationMs t;
  inv_handles : ∀ e, e ∈ pending w → (handle e < nextHandle w)%N;
  inv_timer_handles : ∀ i h, activeTimers w !! i = Some h →
                      (h < nextHandle w)%N;
}.

(** No [-] in a string. *)
Fixpoint dashFree (s : string) : bool :=
  match s with
  | EmptyString => true
  | String a s' => negb (Ascii.eqb a "-"%char) && dashFree s'
  end.

(** The toast [createToastFromPayload] builds in world [w]. *)
Definition createdToast (globalConfig : Config.t) (payload : Payload.t)
  (w : World) : Toast.t :=
  match ToastService.createToastFromPayload globalConfig payload w with
  | Ok toast _ => toast
  | Throw _ _ =>
    {| Toast.id := ""; Toast.createdAt := 0; Toast.message := "";
       Toast.title := None; Toast.type := Info; Toast.theme := Light;
       Toast.durationMs := 0; Toast.dismissible := false; Toast.actions := [];
       Toast.styleClass := None; Toast.iconTemplate := None;
       Toast.avatarUrl := None; Toast.progressPercent := None;
       Toast.position := BottomRight |}
  end.

(** The stored progress of the toast with the given id, if it is tracked. *)
Definition storedProgress (toastId : string) (w : World) : option (option Z) :=
  Toast.progressPercent <$>
  List.find (λ t, bool_decide (Toast.id t = toastId)) (toastsSignal w).

(** Unfolds the service's operations down to functions on worlds. *)
Ltac munfold :=
  unfold ToastService.show, ToastService.dismiss, ToastService.dismissAll,
    ToastService.updateProgress, ToastService.pauseTimer,
    ToastService.resumeTimer, ToastService.timerFires,
    ToastService.validatePayload, ToastService.validateProgressValue,
    ToastService.createToastFromPayload, ToastService.generateToastId,
    ToastService.addToast, ToastService.removeToast,
    ToastService.clearTimerForToast, ToastService.scheduleAutoDismissIfNeeded,
    ToastService.clearAllTimers, Host.dateNow, Host.setTimeout,
    Host.clearTimeout, Host.advance,
    mbind, M_bind, mret, M_ret, throw, get, modify in *.

(** A series of [show] calls, time passing before each one; the ids come
    back in call order. *)
Fixpoint showEach (globalConfig : Config.t) (calls : list (N * Payload.t))
  : M (list string) :=
  match calls with
  | [] => mret []
  | (dt, payload) :: rest =>
    Host.advance dt ;;
    i ← ToastService.show globalConfig payload;
    others ← showEach globalConfig rest;
    mret (i :: others)
  end.

(** [{ ...DEFAULT_TOAST_CONFIG, ...provided }] for the configurations the
    examples use. *)
Definition configWith (maxVisible : Z) (newestOnTop pauseOnHover : bool)
  : Config.t :=
  Config.merge DEFAULT_TOAST_CONFIG
    (Some {| Config.position' := None; Config.theme' := None;
             Config.defaultDurationMs' := None;
             Config.maximumVisibleToasts' := Some maxVisible;
             Config.newestOnTop' := Some newestOnTop;
             Config.pauseOnHover' := Some pauseOnHover;
             Config.dismissibleByDefault' := None;
             Config.defaultType' := None |}).


(** [{ message, durationMs, progressPercent }]. *)
Definition payloadWith (m : string) (d q : option Z) : Payload.t :=
  {| Payload.message := m; Payload.title := None; Payload.type := None;
     Payload.theme := None; Payload.durationMs := d;
     Payload.dismissible := None; Payload.actions := None;
     Payload.styleClass := None; Payload.iconTemplate := None;
     Payload.avatarUrl := None; Payload.progressPercent := q;
     Payload.position := None |}.

(** *** The rest of the service and of the components *)

(** The constructor registers [() => this.clearAllTimers()] with the
    [DestroyRef]: this is what runs when the service is destroyed. *)
Definition onDestroy : M unit := ToastService.clearAllTimers.

(** [TOAST_TYPE_ICON_PATHS] and the [iconPath] signal of the item component:
    [TOAST_TYPE_ICON_PATHS[toastType] ?? TOAST_TYPE_ICON_PATHS['info']]. *)
Module ToastItemIcon.




End ToastItemIcon.

(** The six members of [ToastPosition]. *)
Definition allPositions : list ToastPosition :=
  [TopRight; TopLeft; BottomRight; BottomLeft; TopCenter; BottomCenter].

(** What reachable worlds satisfy about the timer table: handles are not
    shared, and a registered timer belongs to a tracked toast and is still
    queued, with that toast as its target. *)
Record TimerInv (w : World) : Prop := {
  tinv_handles : NoDup (handle <$> pending w);
  tinv_tracked : ∀ i h, activeTimers w !! i = Some h → i ∈ ids w;
  tinv_queued : ∀ i h, activeTimers w !! i = Some h →
                ∃ e, e ∈ pending w ∧ handle e = h ∧ target e = i;
}.

(* ===================================================================== *)
(** * Lemmas *)
(* ===================================================================== *)

(** ** Identifiers *)

Lemma dashFree_string_of_uint d : dashFree (NilEmpty.string_of_uint d) = true.
Proof. induction d; simpl; auto. Qed.

Lemma dashFree_stringOfN n : dashFree (Js.stringOfN n) = true.
Proof.
  unfold Js.stringOfN, NilZero.string_of_uint.
  destruct (N.to_uint n); try reflexivity; apply dashFree_string_of_uint.
Qed.

Lemma split_at_dash a b x y :
  dashFree a = true → dashFree b = true →
  a +:+ "-" +:+ x = b +:+ "-" +:+ y → a = b ∧ x = y.
Proof.
  revert b. induction a as [|c a IH]; intros [|d b]; simpl; intros Ha Hb E.
  - by injection E.
  - injection E as E1 E2. subst d. by rewrite Ascii.eqb_refl in Hb.
  - injection E as E1 E2. subst c. by rewrite Ascii.eqb_refl in Ha.
  - injection E as E1 E2. subst d.
    apply andb_true_iff in Ha as [_ Ha]. apply andb_true_iff in Hb as [_ Hb].
    destruct (IH b Ha Hb E2) as [-> ->]. done.
Qed.

Lemma stringOfN_inj n m : Js.stringOfN n = Js.stringOfN m → n = m.
Proof.
  unfold Js.stringOfN. intros E.
  apply DecimalN.Unsigned.to_uint_inj.
  assert (Hnn : ∀ k, N.to_uint k ≠ Decimal.Nil).
  { intros [|p]; [discriminate | apply DecimalPos.Unsigned.to_uint_nonnil]. }
  pose proof (NilZero.usu _ (Hnn n)) as H1.
  pose proof (NilZero.usu _ (Hnn m)) as H2.
  rewrite E in H1. congruence.
Qed.

Lemma formatToastId_inj now1 c1 now2 c2 :
  ToastService.formatToastId now1 c1 = ToastService.formatToastId now2 c2 →
  now1 = now2 ∧ c1 = c2.
Proof.
  unfold ToastService.formatToastId, TOAST_ID_PREFIX. intros E.
  simpl in E. injection E as E.
  apply split_at_dash in E; try apply dashFree_stringOfN.
  destruct E as [E1 E2]. split; by apply stringOfN_inj.
Qed.

Lemma generated_mono c c' i : (c ≤ c')%N → generated c i → generated c' i.
Proof. intros Hle (now & k & -> & Hk). exists now, k. split; [done | lia]. Qed.

Lemma generated_fresh c now i :
  generated c i → i ≠ ToastService.formatToastId now (c + 1).
Proof.
  intros (now' & k & -> & Hk) E. apply formatToastId_inj in E as [_ ->]. lia.
Qed.

(** ** Validation *)

Lemma validateProgressValue_ok q w :
  0 ≤ q ≤ 100 → ToastService.validateProgressValue q w = Ok () w.
Proof.
  intros Hq. munfold. unfold PROGRESS_MINIMUM_PERCENT, PROGRESS_MAXIMUM_PERCENT.
  destruct (Z.leb_spec 0 q); [|lia]. destruct (Z.leb_spec q 100); [done|lia].
Qed.

Lemma validateProgressValue_throw q w :
  q < 0 ∨ 100 < q →
  ∃ e, ToastService.validateProgressValue q w = Throw e w ∧
       code e = INVALID_PROGRESS_VALUE.
Proof.
  intros Hq. munfold. unfold PROGRESS_MINIMUM_PERCENT, PROGRESS_MAXIMUM_PERCENT.
  destruct (Z.leb_spec 0 q); destruct (Z.leb_spec q 100); simpl;
    first [lia | eexists; split; reflexivity].
Qed.

Lemma validatePayload_ok p w :
  (∀ d, Payload.durationMs p = Some d → 0 ≤ d) →
  (∀ q, Payload.progressPercent p = Some q → 0 ≤ q ≤ 100) →
  ToastService.validatePayload p w = Ok () w.
Proof.
  intros Hd Hq. unfold ToastService.validatePayload, mbind, M_bind.
  destruct (Payload.durationMs p) as [d|];
    [specialize (Hd d eq_refl); destruct (Z.ltb_spec d 0); [lia|] |];
    unfold mret at 1, M_ret at 1;
    (destruct (Payload.progressPercent p) as [q|]; [|done]);
    by apply validateProgressValue_ok, Hq.
Qed.

Lemma validatePayload_duration p w d :
  Payload.durationMs p = Some d → d < 0 →
  ∃ e, ToastService.validatePayload p w = Throw e w ∧
       code e = INVALID_DURATION.
Proof.
  intros Ed Hd. unfold ToastService.validatePayload, mbind, M_bind.
  rewrite Ed. destruct (Z.ltb_spec d 0); [|lia].
  eexists. split; reflexivity.
Qed.

Lemma validatePayload_progress p w q :
  (∀ d, Payload.durationMs p = Some d → 0 ≤ d) →
  Payload.progressPercent p = Some q → q < 0 ∨ 100 < q →
  ∃ e, ToastService.validatePayload p w = Throw e w ∧
       code e = INVALID_PROGRESS_VALUE.
Proof.
  intros Hd Eq Hq. unfold ToastService.validatePayload, mbind, M_bind.
  rewrite Eq.
  destruct (Payload.durationMs p) as [d|];
    [specialize (Hd d eq_refl); destruct (Z.ltb_spec d 0); [lia|] |];
    unfold mret at 1, M_ret at 1;
    by apply validateProgressValue_throw.
Qed.

Lemma validatePayload_world p w :
  worldOf (ToastService.validatePayload p w) = w.
Proof.
  munfold.
  destruct (Payload.durationMs p) as [d|]; [destruct (d <? 0); [done|] |];
    (destruct (Payload.progressPercent p) as [q|]; [|done];
     by destruct (negb _)).
Qed.

(** ** The operations as functions on worlds *)

Lemma createToastFromPayload_eq cfg p w :
  ToastService.createToastFromPayload cfg p w
  = Ok (createdToast cfg p w) (setCounter (toastIdCounter w + 1) w).
Proof. reflexivity. Qed.

Lemma createdToast_id cfg p w :
  Toast.id (createdToast cfg p w)
  = ToastService.formatToastId (clock w) (toastIdCounter w + 1).
Proof. reflexivity. Qed.


Lemma scheduleAutoDismissIfNeeded_eq t w :
  ToastService.scheduleAutoDismissIfNeeded t w
  = Ok ()
      (if Toast.durationMs t <=? 0 then w
       else
         setTimers (<[Toast.id t := nextHandle w]> (activeTimers w))
           (setNextHandle (nextHandle w + 1)
              (setPending
                 (pending w ++
                  [{| handle := nextHandle w;
                      due := Z.of_N (clock w) + Z.max 0 (Toast.durationMs t);
                      target := Toast.id t |}]) w))).
Proof. munfold. by destruct (_ <=? 0). Qed.

Lemma clearTimerForToast_eq i w :
  ToastService.clearTimerForToast i w
  = Ok ()
      (match activeTimers w !! i with
       | Some h =>
         setTimers (delete i (activeTimers w))
           (setPending (Host.cancel h (pending w)) w)
       | None => w
       end).
Proof. munfold. by destruct (activeTimers w !! i). Qed.

Lemma dismiss_eq i w :
  ToastService.dismiss i w
  = Ok ()
      (setToasts (filter (λ t, Toast.id t ≠ i) (toastsSignal w))
         (worldOf (ToastService.clearTimerForToast i w))).
Proof.
  unfold ToastService.dismiss, mbind, M_bind.
  rewrite clearTimerForToast_eq. simpl.
  by destruct (activeTimers w !! i).
Qed.

Lemma show_eq cfg p w :
  ToastService.show cfg p w
  = match ToastService.validatePayload p w with
    | Throw e w' => Throw e w'
    | Ok _ _ =>
      let t := createdToast cfg p w in
      Ok (Toast.id t)
         (worldOf
            (ToastService.scheduleAutoDismissIfNeeded t
               (setToasts
                  (if Config.newestOnTop cfg then t :: toastsSignal w
                   else toastsSignal w ++ [t])
                  (setCounter (toastIdCounter w + 1) w))))
    end.
Proof.
  unfold ToastService.show, mbind at 1, M_bind at 1.
  pose proof (validatePayload_world p w) as Hw.
  destruct (ToastService.validatePayload p w) as [[] w'|e w']; simpl in Hw;
    subst w'; [|done].
  unfold mbind, M_bind. rewrite createToastFromPayload_eq.
  unfold ToastService.addToast at 1, modify at 1.
  rewrite !scheduleAutoDismissIfNeeded_eq. reflexivity.
Qed.

(** ** The invariant of reachable worlds *)

Lemma NoDup_fmap_eq {A B} (f : A → B) (l : list A) x y :
  NoDup (f <$> l) → x ∈ l → y ∈ l → f x = f y → x = y.
Proof.
  induction l as [|a l IH]; simpl; intros Hnd Hx Hy E.
  - by apply elem_of_nil in Hx.
  - apply NoDup_cons in Hnd as [Hna Hnd].
    apply elem_of_cons in Hx as [->|Hx]; apply elem_of_cons in Hy as [->|Hy];
      try done.
    + exfalso. apply Hna. rewrite E. by apply list_elem_of_fmap_2.
    + exfalso. apply Hna. rewrite <- E. by apply list_elem_of_fmap_2.
    + by apply IH.
Qed.

Lemma Inv_initialWorld t0 : Inv (initialWorld t0).
Proof.
  split; simpl; try (intros; exfalso; eapply elem_of_nil; eassumption).
  - constructor.
  - intros i h H. by rewrite lookup_empty in H.
Qed.

(** Dropping toasts and queue entries, and moving the counters forward,
    keeps the invariant. *)
Lemma Inv_shrink w w' :
  Inv w →
  toastsSignal w' `sublist_of` toastsSignal w →
  pending w' ⊆ pending w →
  activeTimers w' ⊆ activeTimers w →
  (toastIdCounter w ≤ toastIdCounter w')%N →
  (nextHandle w ≤ nextHandle w')%N →
  Inv w'.
Proof.
  intros [Hids Hnd Htg Hpos Hh Hth] Hsub Hq Hm Hc Hn.
  assert (Hin : ∀ t, t ∈ toastsSignal w' → t ∈ toastsSignal w).
  { intros t Ht. eapply elem_of_sublist; eassumption. }
  split.
  - intros t Ht. eapply generated_mono; [exact Hc | auto].
  - unfold ids in *. eapply sublist_NoDup; [exact Hnd|]. by apply fmap_sublist.
  - intros e He. eapply generated_mono; [exact Hc | auto].
  - intros e t He Ht. apply Hpos; auto.
  - intros e He. specialize (Hh e (Hq e He)). lia.
  - intros i h Hi. eapply lookup_weaken in Hi; [|exact Hm].
    specialize (Hth i h Hi). lia.
Qed.

Lemma cancel_subseteq h q : Host.cancel h q ⊆ q.
Proof. intros e He. by apply list_elem_of_filter in He as [_ ?]. Qed.

Lemma cancel_all_subseteq hs q : foldr Host.cancel q hs ⊆ q.
Proof.
  induction hs as [|h hs IH]; simpl; [done|].
  intros e He. apply IH. by apply cancel_subseteq in He.
Qed.

Lemma Inv_clearTimerForToast i w :
  Inv w → Inv (worldOf (ToastService.clearTimerForToast i w)).
Proof.
  intros HI. rewrite clearTimerForToast_eq. simpl.
  destruct (activeTimers w !! i); [|done].
  eapply Inv_shrink; [exact HI | simpl..]; try done.
  - apply cancel_subseteq.
  - apply delete_subseteq.
Qed.

Lemma Inv_dismiss i w : Inv w → Inv (worldOf (ToastService.dismiss i w)).
Proof.
  intros HI. rewrite dismiss_eq, clearTimerForToast_eq. simpl.
  eapply Inv_shrink; [exact HI | simpl..].
  - destruct (activeTimers w !! i); simpl; apply sublist_filter.
  - destruct (activeTimers w !! i); simpl; [apply cancel_subseteq | done].
  - destruct (activeTimers w !! i); simpl; [apply delete_subseteq | done].
  - by destruct (activeTimers w !! i).
  - by destruct (activeTimers w !! i).
Qed.

Lemma Inv_dismissAll w : Inv w → Inv (worldOf (ToastService.dismissAll w)).
Proof.
  intros HI. munfold. simpl.
  eapply Inv_shrink; [exact HI | simpl..]; try done.
  - apply sublist_nil_l.
  - apply cancel_all_subseteq.
  - apply map_empty_subseteq.
Qed.

Lemma updateProgress_ids i q (l : list Toast.t) :
  Toast.id <$>
    map (λ toast, if bool_decide (Toast.id toast = i)
                  then Toast.withProgress toast q else toast) l
  = Toast.id <$> l.
Proof.
  induction l as [|t l IH]; simpl; [done|]. f_equal; [|exact IH].
  by case_bool_decide.
Qed.

Lemma Inv_updateProgress i q w :
  Inv w → Inv (worldOf (ToastService.updateProgress i q w)).
Proof.
  intros HI. unfold ToastService.updateProgress, mbind, M_bind.
  destruct (ToastService.validateProgressValue q w) as [[] w'|e w'] eqn:E.
  2:{ munfold. destruct (negb _); by simplify_eq. }
  assert (w' = w) as -> by (munfold; destruct (negb _); by simplify_eq).
  destruct HI as [Hids Hnd Htg Hpos Hh Hth]. unfold modify. simpl.
  assert (Hback : ∀ t,
    t ∈ map (λ toast, if bool_decide (Toast.id toast = i)
                      then Toast.withProgress toast q else toast)
            (toastsSignal w) →
    ∃ t0, t0 ∈ toastsSignal w ∧ Toast.id t = Toast.id t0 ∧
          Toast.durationMs t = Toast.durationMs t0).
  { intros t Ht. apply (list_elem_of_fmap (B:=Toast.t)) in Ht as (t0 & -> & Ht0).
    exists t0. by case_bool_decide. }
  split; simpl.
  - intros t Ht. destruct (Hback t Ht) as (t0 & Ht0 & -> & _). auto.
  - unfold ids. simpl. by rewrite updateProgress_ids.
  - done.
  - intros e t He Ht Eid. destruct (Hback t Ht) as (t0 & Ht0 & E1 & ->).
    apply (Hpos e); [done..|congruence].
  - done.
  - done.
Qed.

Lemma Inv_scheduleAutoDismissIfNeeded t w :
  Inv w → t ∈ toastsSignal w →
  Inv (worldOf (ToastService.scheduleAutoDismissIfNeeded t w)).
Proof.
  intros HI Ht. rewrite scheduleAutoDismissIfNeeded_eq. simpl.
  destruct (Z.leb_spec (Toast.durationMs t) 0) as [|Hd]; [done|].
  destruct HI as [Hids Hnd Htg Hpos Hh Hth].
  split; simpl; try done.
  - intros e [He| ->%list_elem_of_singleton]%elem_of_app; simpl; auto.
  - intros e t' [He| ->%list_elem_of_singleton]%elem_of_app Ht' Eid; simpl in *.
    + eapply Hpos; eauto.
    + assert (t' = t) as ->; [|done].
      by eapply (NoDup_fmap_eq Toast.id (toastsSignal w)).
  - intros e [He| ->%list_elem_of_singleton]%elem_of_app; simpl.
    + specialize (Hh e He). lia.
    + lia.
  - intros i h. rewrite lookup_insert. case_decide.
    + intros [= <-]. lia.
    + intros Hi. specialize (Hth i h Hi). lia.
Qed.

Lemma Inv_show cfg p w : Inv w → Inv (worldOf (ToastService.show cfg p w)).
Proof.
  intros HI. rewrite show_eq.
  pose proof (validatePayload_world p w) as Hw.
  destruct (ToastService.validatePayload p w) as [[] w'|e w']; simpl in Hw;
    subst w'; [|done].
  cbv zeta. unfold worldOf at 1.
  apply Inv_scheduleAutoDismissIfNeeded.
  2:{ simpl. destruct (Config.newestOnTop cfg);
        [apply list_elem_of_here |
         apply elem_of_app; right; apply list_elem_of_here]. }
  destruct HI as [Hids Hnd Htg Hpos Hh Hth].
  set (t := createdToast cfg p w).
  assert (Hfresh : ∀ i, generated (toastIdCounter w) i → i ≠ Toast.id t).
  { intros i Hi. by apply generated_fresh. }
  assert (Hgen : generated (toastIdCounter w + 1) (Toast.id t)).
  { exists (clock w), (toastIdCounter w + 1)%N. split; [done | lia]. }
  assert (Hold : ∀ i, generated (toastIdCounter w) i →
                      generated (toastIdCounter w + 1) i).
  { intros i. apply generated_mono. lia. }
  assert (Hnotin : Toast.id t ∉ ids w).
  { intros (t0 & E & Ht0)%list_elem_of_fmap. by apply (Hfresh _ (Hids t0 Ht0)). }
  assert (Hmem : ∀ x : Toast.t,
            x ∈ (if Config.newestOnTop cfg then t :: toastsSignal w
                 else toastsSignal w ++ [t]) →
            x = t ∨ x ∈ toastsSignal w).
  { intros x. destruct (Config.newestOnTop cfg).
    - intros [->|?]%elem_of_cons; auto.
    - intros [?| ->%list_elem_of_singleton]%elem_of_app; auto. }
  split; simpl.
  - intros x [->|Hx]%Hmem; auto.
  - unfold ids in *. simpl. destruct (Config.newestOnTop cfg); simpl.
    + by apply NoDup_cons.
    + rewrite fmap_app. apply NoDup_app. split_and!; [done| |apply NoDup_singleton].
      intros i Hi ->%list_elem_of_singleton. done.
  - auto.
  - intros e x He [->|Hx]%Hmem Eid; [|eauto].
    exfalso. by apply (Hfresh _ (Htg e He)).
  - done.
  - done.
Qed.

Lemma find_id_elem_of i (l : list Toast.t) t :
  List.find (λ t, bool_decide (Toast.id t = i)) l = Some t →
  t ∈ l ∧ Toast.id t = i.
Proof.
  intros [Hin Hb]%List.find_some. split; [by apply list_elem_of_In|].
  by apply bool_decide_eq_true in Hb.
Qed.

Lemma Inv_resumeTimer i w :
  Inv w → Inv (worldOf (ToastService.resumeTimer i w)).
Proof.
  intros HI. unfold ToastService.resumeTimer, mbind, M_bind, get.
  destruct (List.find _ (toastsSignal w)) as [t|] eqn:E; [|done].
  destruct (0 <? Toast.durationMs t); [|done].
  apply Inv_scheduleAutoDismissIfNeeded; [done|].
  by apply find_id_elem_of in E as [? _].
Qed.

Lemma Inv_timerFires h w :
  Inv w → Inv (worldOf (ToastService.timerFires h w)).
Proof.
  intros HI. unfold ToastService.timerFires, mbind, M_bind, get.
  destruct (Host.dueEntry h w) as [e|]; [|done].
  unfold Host.clearTimeout, modify.
  apply Inv_dismiss.
  eapply Inv_shrink; [exact HI | simpl..]; try done.
  apply cancel_subseteq.
Qed.

Lemma Inv_step cfg w a : Inv w → Inv (step cfg w a).
Proof.
  intros HI. unfold step. destruct a; simpl.
  - unfold mbind, M_bind. pose proof (Inv_show cfg payload w HI) as H.
    by destruct (ToastService.show cfg payload w).
  - by apply Inv_dismiss.
  - by apply Inv_dismissAll.
  - by apply Inv_updateProgress.
  - by apply Inv_clearTimerForToast.
  - by apply Inv_resumeTimer.
  - by apply Inv_timerFires.
  - destruct HI; by split.
Qed.

Lemma reachable_Inv cfg w : reachable cfg w → Inv w.
Proof.
  induction 1; [apply Inv_initialWorld | by apply Inv_step].
Qed.

(* ===================================================================== *)
(** * Animation orchestrator *)
(* ===================================================================== *)

(** C9. [getDirectionFromPosition] sends each of the six positions to one
    direction: the two left positions to left, the two right positions to
    right, top-center to top and bottom-center to bottom.  The [left] and
    [right] tests come first: top-left starts with [top] and still yields
    left, and likewise top-right yields right. *)
Theorem getDirectionFromPosition_table :
  (∀ position,
     AnimationService.getDirectionFromPosition position
     = match position with
       | TopLeft | BottomLeft => DirLeft
       | TopRight | BottomRight => DirRight
       | TopCenter => DirTop
       | BottomCenter => DirBottom
       end) ∧
  (Js.startsWith (positionName TopLeft) "top" = true ∧
   AnimationService.getDirectionFromPosition TopLeft = DirLeft) ∧
  (Js.startsWith (positionName TopRight) "top" = true ∧
   AnimationService.getDirectionFromPosition TopRight = DirRight).
Proof. split; [by intros [] | by split]. Qed.

(** C8. Under a reduced-motion preference and without a custom callback for
    the phase, [runEnterAnimation] and [runLeaveAnimation] run the fade
    preset whatever preset was requested, lasting
    [ANIMATION_REDUCED_MOTION_DURATION_MS] = 100 whatever duration was
    requested. *)
Theorem reduced_motion_runs_fade window position preset custom durationMs easing :
  AnimationService.detectReducedMotion window = true →
  (custom ≫= customEnter = None →
   AnimationService.runEnterAnimation (AnimationService.create window)
     position preset custom durationMs easing
   = [enter fadeAnimation
        (AnimationService.getDirectionFromPosition position)
        ANIMATION_REDUCED_MOTION_DURATION_MS
        (default ANIMATION_DEFAULT_EASING easing)]
   ∧ enter fadeAnimation
        (AnimationService.getDirectionFromPosition position)
        ANIMATION_REDUCED_MOTION_DURATION_MS
        (default ANIMATION_DEFAULT_EASING easing)
     = Animate [ {| opacity := 0; transform := None; offset := None |};
                 {| opacity := 1; transform := None; offset := None |} ]
               {| duration := 100;
                  easing := default ANIMATION_DEFAULT_EASING easing;
                  fill := "forwards" |}) ∧
  (custom ≫= customLeave = None →
   AnimationService.runLeaveAnimation (AnimationService.create window)
     position preset custom durationMs easing
   = [leave fadeAnimation
        (AnimationService.getDirectionFromPosition position)
        ANIMATION_REDUCED_MOTION_DURATION_MS
        (default ANIMATION_DEFAULT_EASING easing)]
   ∧ leave fadeAnimation
        (AnimationService.getDirectionFromPosition position)
        ANIMATION_REDUCED_MOTION_DURATION_MS
        (default ANIMATION_DEFAULT_EASING easing)
     = Animate [ {| opacity := 1; transform := None; offset := None |};
                 {| opacity := 0; transform := None; offset := None |} ]
               {| duration := 100;
                  easing := default ANIMATION_DEFAULT_EASING easing;
                  fill := "forwards" |}).
Proof.
  intros Hrm. split; intros Hc.
  - unfold AnimationService.runEnterAnimation. rewrite Hc.
    unfold AnimationService.create. simpl. rewrite Hrm. done.
  - unfold AnimationService.runLeaveAnimation. rewrite Hc.
    unfold AnimationService.create. simpl. rewrite Hrm. done.
Qed.

(** A browser that reports [prefers-reduced-motion: reduce]; bounce is
    requested for 500ms. *)
Lemma reduced_motion_runs_fade_witness :
  let window := Some {| matchMedia := Some (λ _, true) |} in
  AnimationService.runEnterAnimation (AnimationService.create window)
    BottomRight (Some Bounce) None (Some 500) None
  = [Animate [ {| opacity := 0; transform := None; offset := None |};
               {| opacity := 1; transform := None; offset := None |} ]
             {| duration := 100; easing := ANIMATION_DEFAULT_EASING;
                fill := "forwards" |}] ∧
  AnimationService.runLeaveAnimation (AnimationService.create window)
    BottomRight (Some Bounce) None (Some 500) None
  = [Animate [ {| opacity := 1; transform := None; offset := None |};
               {| opacity := 0; transform := None; offset := None |} ]
             {| duration := 100; easing := ANIMATION_DEFAULT_EASING;
                fill := "forwards" |}].
Proof.
  intros window.
  destruct (reduced_motion_runs_fade window BottomRight (Some Bounce) None
              (Some 500) None eq_refl) as [He Hl].
  destruct (He eq_refl) as [He1 He2]. destruct (Hl eq_refl) as [Hl1 Hl2].
  split.
  - rewrite He1, He2. reflexivity.
  - rewrite Hl1, Hl2. reflexivity.
Defined.

(* ===================================================================== *)
(** * Components *)
(* ===================================================================== *)




(** The item's own listeners honour the flag. *)
Lemma item_hover_guarded cfg toast :
  (CallPauseTimer (Toast.id toast)
     ∈ ToastItemComponent.handleMouseEnter cfg toast
   ↔ Config.pauseOnHover cfg = true) ∧
  (CallResumeTimer (Toast.id toast)
     ∈ ToastItemComponent.handleMouseLeave cfg toast
   ↔ Config.pauseOnHover cfg = true).
Proof.
  unfold ToastItemComponent.handleMouseEnter,
    ToastItemComponent.handleMouseLeave, ToastService.pauseOnHover.
  destruct (Config.pauseOnHover cfg); split; split; intros H; try done;
    try apply list_elem_of_here; by apply elem_of_nil in H.
Qed.

(** The container's listeners do not look at it, so a pointer event on a
    rendered toast reaches the service whatever the flag says. *)
Lemma rendered_hover_calls_service cfg toast :
  CallPauseTimer (Toast.id toast) ∈ Rendered.mouseenter cfg toast ∧
  CallResumeTimer (Toast.id toast) ∈ Rendered.mouseleave cfg toast.
Proof.
  unfold Rendered.mouseenter, Rendered.mouseleave.
  split; apply elem_of_app; right; apply list_elem_of_here.
Qed.

(** C6 (the code departs from the specification). With [pauseOnHover: false] and one
    toast on screen, hover-enter on the rendered toast calls [pauseTimer] and
    hover-leave calls [resumeTimer]: the pending auto-dismiss timer is
    cancelled by the hover-enter. *)
Theorem hover_ignores_pauseOnHover_off :
  let cfg := configWith 5 true false in
  let w := step cfg (initialWorld 0) (Show (Payload.ofMessage "x")) in
  ∃ toast,
    ToastService.visibleToasts cfg w = [toast] ∧
    ToastService.pauseOnHover cfg = false ∧
    Rendered.mouseenter cfg toast = [CallPauseTimer (Toast.id toast)] ∧
    Rendered.mouseleave cfg toast = [CallResumeTimer (Toast.id toast)] ∧
    target <$> pending w = [Toast.id toast] ∧
    pending (worldOf (performAll (Rendered.mouseenter cfg toast) w)) = [].
Proof. intros cfg w. eexists. split; [vm_compute; reflexivity|]. by vm_compute. Qed.

(* ===================================================================== *)
(** * Lifecycle engine: validation *)
(* ===================================================================== *)

Lemma show_throws cfg p w e w' :
  ToastService.validatePayload p w = Throw e w' →
  ToastService.show cfg p w = Throw e w'.
Proof. intros H. by rewrite show_eq, H. Qed.

Lemma show_returns cfg p w :
  ToastService.validatePayload p w = Ok () w →
  thrownCode (ToastService.show cfg p w) = None.
Proof. intros H. by rewrite show_eq, H. Qed.

Lemma updateProgress_throws i q w :
  q < 0 ∨ 100 < q →
  ∃ e, ToastService.updateProgress i q w = Throw e w ∧
       code e = INVALID_PROGRESS_VALUE.
Proof.
  intros Hq. destruct (validateProgressValue_throw q w Hq) as (e & He & Hc).
  exists e. split; [|done].
  unfold ToastService.updateProgress, mbind, M_bind. by rewrite He.
Qed.

Lemma updateProgress_returns i q w :
  0 ≤ q ≤ 100 → thrownCode (ToastService.updateProgress i q w) = None.
Proof.
  intros Hq. unfold ToastService.updateProgress, mbind, M_bind.
  by rewrite validateProgressValue_ok.
Qed.

(** C1, as stated, fails: a payload whose progress is out of range and whose
    duration is negative is refused with [INVALID_DURATION], not with
    [INVALID_PROGRESS_VALUE]; the duration is checked first. *)
Lemma show_progress_error_masked :
  let p := payloadWith "Test" (Some (-1)) (Some 150) in
  Payload.progressPercent p = Some 150 ∧
  ¬ (0 ≤ 150 ≤ 100) ∧
  thrownCode (ToastService.show DEFAULT_TOAST_CONFIG p (initialWorld 0))
    = Some INVALID_DURATION ∧
  thrownCode (ToastService.show DEFAULT_TOAST_CONFIG p (initialWorld 0))
    ≠ Some INVALID_PROGRESS_VALUE.
Proof. intros p. split_and!; [done | lia | done | done]. Qed.

(** C1 (amended). [show] refuses every payload with [durationMs < 0] with
    [INVALID_DURATION]; it refuses every payload whose [progressPercent] is
    outside [0,100] with [INVALID_PROGRESS_VALUE] unless the duration is
    negative as well (the duration is checked first); [updateProgress]
    refuses every value outside [0,100] with [INVALID_PROGRESS_VALUE].  The
    bounds 0 and 100 are accepted by both.  A refused call changes nothing:
    the world it leaves is the world it found, and so is the stored progress
    of every toast. *)
Theorem validation_errors cfg p w i q :
  (∀ d, Payload.durationMs p = Some d → d < 0 →
     thrownCode (ToastService.show cfg p w) = Some INVALID_DURATION ∧
     worldOf (ToastService.show cfg p w) = w) ∧
  ((∀ d, Payload.durationMs p = Some d → 0 ≤ d) →
   Payload.progressPercent p = Some q →
   (q < 0 ∨ 100 < q →
      thrownCode (ToastService.show cfg p w) = Some INVALID_PROGRESS_VALUE ∧
      worldOf (ToastService.show cfg p w) = w) ∧
   (q = 0 ∨ q = 100 → thrownCode (ToastService.show cfg p w) = None)) ∧
  (q < 0 ∨ 100 < q →
     thrownCode (ToastService.updateProgress i q w)
       = Some INVALID_PROGRESS_VALUE ∧
     worldOf (ToastService.updateProgress i q w) = w ∧
     ∀ j, storedProgress j (worldOf (ToastService.updateProgress i q w))
          = storedProgress j w) ∧
  (q = 0 ∨ q = 100 →
     thrownCode (ToastService.updateProgress i q w) = None).
Proof.
  split_and!.
  - intros d Ed Hd.
    destruct (validatePayload_duration p w d Ed Hd) as (e & He & Hc).
    rewrite (show_throws cfg p w e w He). simpl. by rewrite Hc.
  - intros Hd Eq. split.
    + intros Hq.
      destruct (validatePayload_progress p w q Hd Eq Hq) as (e & He & Hc).
      rewrite (show_throws cfg p w e w He). simpl. by rewrite Hc.
    + intros Hq. apply show_returns, validatePayload_ok; [done|].
      intros q' Eq'. assert (q' = q) as -> by congruence. lia.
  - intros Hq. destruct (updateProgress_throws i q w Hq) as (e & He & Hc).
    rewrite He. simpl. by rewrite Hc.
  - intros Hq. apply updateProgress_returns. lia.
Qed.

(** The scenario of the tests: a toast shown with progress 0 and updated to
    50; then [updateProgress(id, 150)] throws and the stored progress is still
    50, and [show] of a payload with progress 150 throws too. *)
Lemma validation_errors_witness :
  let cfg := DEFAULT_TOAST_CONFIG in
  let shown := ToastService.show cfg (payloadWith "x" None (Some 0))
                 (initialWorld 0) in
  let i := ToastService.formatToastId 0 1 in
  let w := worldOf (ToastService.updateProgress i 50 (worldOf shown)) in
  storedProgress i w = Some (Some 50) ∧
  thrownCode (ToastService.updateProgress i 150 w)
    = Some INVALID_PROGRESS_VALUE ∧
  storedProgress i (worldOf (ToastService.updateProgress i 150 w))
    = Some (Some 50) ∧
  thrownCode (ToastService.show cfg (payloadWith "y" None (Some 150)) w)
    = Some INVALID_PROGRESS_VALUE ∧
  thrownCode (ToastService.show cfg (payloadWith "z" (Some (-1000)) None) w)
    = Some INVALID_DURATION.
Proof.
  intros cfg shown i w.
  destruct (validation_errors cfg (payloadWith "y" None (Some 150)) w i 150)
    as (_ & Hshow & Hupd & _).
  destruct (validation_errors cfg (payloadWith "z" (Some (-1000)) None) w i 0)
    as (Hdur & _).
  assert (H150 : 150 < 0 ∨ 100 < 150) by (right; lia).
  destruct (Hupd H150) as (Hcode & Hworld & Hstored).
  split_and!.
  - by vm_compute.
  - exact Hcode.
  - rewrite Hstored. by vm_compute.
  - apply Hshow; [intros d Hd; discriminate Hd | reflexivity | exact H150].
  - apply (Hdur (-1000)); [reflexivity | lia].
Defined.

(* ===================================================================== *)
(** * Lifecycle engine: the visibility window *)
(* ===================================================================== *)

Lemma slice_first {A} (l : list A) n :
  0 ≤ n → Js.slice l 0 (Some n) = take (Z.to_nat n) l.
Proof.
  intros Hn. unfold Js.slice, Js.relativeIndex. simpl.
  destruct (Z.ltb_spec n 0); [lia|].
  rewrite (Z.min_l 0) by lia. change (Z.to_nat 0) with 0%nat.
  rewrite drop_0, Z.sub_0_r.
  destruct (Z.le_ge_cases n (Z.of_nat (length l))).
  - by rewrite Z.min_l.
  - rewrite Z.min_r by done. rewrite Nat2Z.id.
    by rewrite !take_ge by lia.
Qed.

Lemma slice_last {A} (l : list A) n :
  0 < n → Js.slice l (- n) None = drop (length l - Z.to_nat n) l.
Proof.
  intros Hn. unfold Js.slice, Js.relativeIndex.
  destruct (Z.ltb_spec (- n) 0); [|lia].
  assert (Z.to_nat (Z.max (Z.of_nat (length l) + - n) 0)
          = (length l - Z.to_nat n)%nat) as -> by lia.
  apply take_ge. rewrite length_drop. lia.
Qed.

Lemma visibleToasts_newest cfg w :
  Config.newestOnTop cfg = true → 0 ≤ Config.maximumVisibleToasts cfg →
  ToastService.visibleToasts cfg w
  = take (Z.to_nat (Config.maximumVisibleToasts cfg)) (toastsSignal w).
Proof.
  intros Hn Hm. unfold ToastService.visibleToasts. rewrite Hn.
  by apply slice_first.
Qed.

Lemma visibleToasts_oldest cfg w :
  Config.newestOnTop cfg = false → 0 < Config.maximumVisibleToasts cfg →
  ToastService.visibleToasts cfg w
  = drop (length (toastsSignal w)
          - Z.to_nat (Config.maximumVisibleToasts cfg)) (toastsSignal w).
Proof.
  intros Hn Hm. unfold ToastService.visibleToasts. rewrite Hn.
  by apply slice_last.
Qed.

(** With a window of at least one toast the bound of C2 holds in every
    world, and the window is a view: the collection itself is not cut. *)
Lemma visibleToasts_bounded cfg w :
  0 < Config.maximumVisibleToasts cfg →
  Z.of_nat (length (ToastService.visibleToasts cfg w))
    ≤ Config.maximumVisibleToasts cfg ∧
  ToastService.visibleToasts cfg w `sublist_of` ToastService.toasts w.
Proof.
  intros Hm. destruct (Config.newestOnTop cfg) eqn:Hn.
  - rewrite visibleToasts_newest by (done || lia). split.
    + rewrite length_take. lia.
    + apply sublist_take.
  - rewrite visibleToasts_oldest by done. split.
    + rewrite length_drop. lia.
    + apply sublist_drop.
Qed.

(** C2 (the code departs from the specification). With [maximumVisibleToasts: 0] and
    [newestOnTop: false] the window is computed as [slice(-0)], the whole
    collection: after one [show] the world is reachable, one toast is tracked
    and [visibleToasts()] has length 1, above the maximum of 0; the last 0
    toasts of the collection would be none. *)
Theorem visibleToasts_exceeds_zero_window :
  let cfg := configWith 0 false true in
  let w := step cfg (initialWorld 0) (Show (Payload.ofMessage "x")) in
  reachable cfg w ∧
  Config.maximumVisibleToasts cfg = 0 ∧
  Config.newestOnTop cfg = false ∧
  length (ToastService.toasts w) = 1%nat ∧
  ToastService.visibleToasts cfg w = ToastService.toasts w ∧
  length (ToastService.visibleToasts cfg w) = 1%nat ∧
  ¬ (Z.of_nat (length (ToastService.visibleToasts cfg w))
     ≤ Config.maximumVisibleToasts cfg) ∧
  ToastService.visibleToasts cfg w
    ≠ drop (length (ToastService.toasts w) - 0) (ToastService.toasts w).
Proof.
  intros cfg w. split_and!; try by vm_compute.
  apply reachable_step, reachable_init.
Qed.

(* ===================================================================== *)
(** * Lifecycle engine: insertion order *)
(* ===================================================================== *)

Lemma scheduleAutoDismissIfNeeded_toasts t w :
  toastsSignal (worldOf (ToastService.scheduleAutoDismissIfNeeded t w))
  = toastsSignal w.
Proof.
  rewrite scheduleAutoDismissIfNeeded_eq. simpl. by destruct (_ <=? 0).
Qed.

Lemma show_toasts cfg p w i w' :
  ToastService.show cfg p w = Ok i w' →
  i = Toast.id (createdToast cfg p w) ∧
  toastsSignal w' = if Config.newestOnTop cfg
                    then createdToast cfg p w :: toastsSignal w
                    else toastsSignal w ++ [createdToast cfg p w].
Proof.
  rewrite show_eq. destruct (ToastService.validatePayload p w); [|done].
  cbv zeta. intros [= <- <-]. by rewrite scheduleAutoDismissIfNeeded_toasts.
Qed.

Lemma showEach_ids cfg calls : ∀ w created w',
  Config.newestOnTop cfg = true →
  showEach cfg calls w = Ok created w' →
  length created = length calls ∧
  ids w' = reverse created ++ ids w.
Proof.
  induction calls as [|[dt p] calls IH]; intros w created w' Hn; simpl.
  - by intros [= <- <-].
  - unfold mbind, M_bind, Host.advance, modify.
    destruct (ToastService.show cfg p _) as [i w1|] eqn:Es; [|done].
    destruct (showEach cfg calls w1) as [rest w2|] eqn:Er; [|done].
    intros [= <- <-].
    apply show_toasts in Es as [-> Et]. rewrite Hn in Et.
    destruct (IH w1 rest w2 Hn Er) as [Hlen Hids]. split; [simpl; lia|].
    rewrite Hids. unfold ids. rewrite Et. simpl.
    by rewrite reverse_cons, <- app_assoc.
Qed.

(** C3, as stated, fails when the window is empty: with [newestOnTop: true]
    and [maximumVisibleToasts: 0], after two [show] calls [visibleToasts()]
    is empty and has no first element. *)
Lemma newest_first_empty_window :
  let cfg := configWith 0 true true in
  ∃ a w1 b w2,
    ToastService.show cfg (Payload.ofMessage "a") (initialWorld 0) = Ok a w1 ∧
    ToastService.show cfg (Payload.ofMessage "b") w1 = Ok b w2 ∧
    Config.newestOnTop cfg = true ∧
    ToastService.visibleToasts cfg w2 = [] ∧
    Toast.id <$> head (ToastService.visibleToasts cfg w2) ≠ Some b.
Proof.
  intros cfg. do 4 eexists.
  split; [vm_compute; reflexivity|]. split; [vm_compute; reflexivity|].
  by vm_compute.
Qed.

(** C3 (amended). With [newestOnTop = true] and a window of at least one
    toast, [show] prepends: after [show(a)] then [show(b)] the first visible
    toast is [b], in front of [a] in the collection; and with
    [maximumVisibleToasts = 5], after ten [show] calls on a fresh service the
    collection has length 10 and the five visible toasts are the five created
    last, newest first. *)
Theorem newest_on_top_prepends cfg :
  Config.newestOnTop cfg = true →
  1 ≤ Config.maximumVisibleToasts cfg →
  (∀ w pa pb a b w1 w2,
     ToastService.show cfg pa w = Ok a w1 →
     ToastService.show cfg pb w1 = Ok b w2 →
     Toast.id <$> head (ToastService.visibleToasts cfg w2) = Some b ∧
     ids w2 = b :: a :: ids w) ∧
  (Config.maximumVisibleToasts cfg = 5 →
   ∀ t0 calls created w,
     length calls = 10%nat →
     showEach cfg calls (initialWorld t0) = Ok created w →
     length (ToastService.toasts w) = 10%nat ∧
     length (ToastService.visibleToasts cfg w) = 5%nat ∧
     Toast.id <$> ToastService.visibleToasts cfg w = reverse (drop 5 created)).
Proof.
  intros Hn Hm. split.
  - intros w pa pb a b w1 w2 Ha Hb.
    apply show_toasts in Ha as [-> Ha]. apply show_toasts in Hb as [-> Hb].
    rewrite Hn in Ha, Hb. rewrite visibleToasts_newest by (done || lia).
    unfold ids. rewrite Hb, Ha. split; [|done].
    destruct (Z.to_nat (Config.maximumVisibleToasts cfg)) eqn:E; [lia|done].
  - intros H5 t0 calls created w Hlen Hrun.
    destruct (showEach_ids cfg calls _ _ _ Hn Hrun) as [Hc Hids].
    unfold ids in Hids. simpl in Hids. rewrite app_nil_r in Hids.
    assert (Hl : length (toastsSignal w) = 10%nat).
    { rewrite <- (length_fmap Toast.id), Hids, length_reverse. lia. }
    rewrite visibleToasts_newest by (done || lia). rewrite H5.
    change (Z.to_nat 5) with 5%nat. unfold ToastService.toasts.
    split_and!; [done | rewrite length_take; lia |].
    rewrite fmap_take, Hids, take_reverse. do 2 f_equal. lia.
Qed.

(** Ten [info()] calls under the default configuration, one per second. *)
Lemma newest_on_top_prepends_witness :
  let cfg := DEFAULT_TOAST_CONFIG in
  let calls :=
    (λ m, (1000%N, spreadOptions None m Info)) <$>
    ["Toast 0"; "Toast 1"; "Toast 2"; "Toast 3"; "Toast 4";
     "Toast 5"; "Toast 6"; "Toast 7"; "Toast 8"; "Toast 9"] in
  ∃ w,
    worldOf (showEach cfg calls (initialWorld 0)) = w ∧
    length (ToastService.toasts w) = 10%nat ∧
    length (ToastService.visibleToasts cfg w) = 5%nat ∧
    Toast.id <$> ToastService.visibleToasts cfg w
    = ["toastly-10000-10"; "toastly-9000-9"; "toastly-8000-8";
       "toastly-7000-7"; "toastly-6000-6"].
Proof.
  intros cfg calls.
  destruct (showEach cfg calls (initialWorld 0)) as [created w|] eqn:E;
    [|by vm_compute in E].
  exists w. split; [done|].
  destruct (newest_on_top_prepends cfg eq_refl ltac:(by vm_compute)) as [_ H].
  destruct (H eq_refl 0%N calls created w eq_refl E) as (H1 & H2 & H3).
  split_and!; [done..|].
  rewrite H3. vm_compute in E. by injection E as <- _.
Defined.

(* ===================================================================== *)
(** * Lifecycle engine: dismissal *)
(* ===================================================================== *)

Lemma reachable_steps cfg w l :
  reachable cfg w → reachable cfg (steps cfg w l).
Proof.
  revert w. induction l as [|a l IH]; intros w Hw; simpl; [done|].
  apply IH. by apply reachable_step.
Qed.

Lemma filter_all {A} (P : A → Prop) `{!∀ x, Decision (P x)} (l : list A) :
  (∀ x, x ∈ l → P x) → filter P l = l.
Proof.
  induction l as [|a l IH]; intros Hall; [done|].
  rewrite filter_cons_True by (apply Hall, list_elem_of_here).
  f_equal. apply IH. intros x Hx. apply Hall. by apply list_elem_of_further.
Qed.

Lemma filter_twice {A} (P : A → Prop) `{!∀ x, Decision (P x)} (l : list A) :
  filter P (filter P l) = filter P l.
Proof.
  apply filter_all. intros x Hx. by apply list_elem_of_filter in Hx as [? _].
Qed.

Lemma dismiss_timer_gone i w :
  activeTimers (worldOf (ToastService.dismiss i w)) !! i = None.
Proof.
  rewrite dismiss_eq, clearTimerForToast_eq. simpl.
  destruct (activeTimers w !! i) eqn:E; simpl; [apply lookup_delete_eq | done].
Qed.

Lemma dismiss_toasts i w :
  toastsSignal (worldOf (ToastService.dismiss i w))
  = filter (λ t, Toast.id t ≠ i) (toastsSignal w).
Proof. by rewrite dismiss_eq. Qed.

(** C4. [dismiss] never throws, for any id.  Called a second time it changes
    nothing at all; called with an id that is not tracked it leaves the
    collection as it is; and when the id is tracked it takes out exactly that
    toast, the others keeping their order. *)
Theorem dismiss_idempotent_total cfg w i :
  reachable cfg w →
  ∃ w1,
    ToastService.dismiss i w = Ok () w1 ∧
    ToastService.dismiss i w1 = Ok () w1 ∧
    (i ∉ ids w1) ∧
    (i ∉ ids w → ToastService.toasts w1 = ToastService.toasts w) ∧
    (∀ before toast after,
       ToastService.toasts w = before ++ toast :: after →
       Toast.id toast = i →
       ToastService.toasts w1 = before ++ after).
Proof.
  intros Hr. apply reachable_Inv in Hr as HI.
  exists (worldOf (ToastService.dismiss i w)).
  pose proof (dismiss_timer_gone i w) as Hgone.
  pose proof (dismiss_toasts i w) as Htoasts.
  unfold ToastService.toasts.
  split_and!.
  - by rewrite dismiss_eq.
  - rewrite (dismiss_eq i (worldOf _)), (clearTimerForToast_eq i (worldOf _)).
    rewrite Hgone, Htoasts. simpl. rewrite filter_twice.
    rewrite dismiss_eq. simpl. reflexivity.
  - unfold ids. rewrite Htoasts.
    intros (t & E & Ht)%list_elem_of_fmap.
    by apply list_elem_of_filter in Ht as [Hne _].
  - intros Hni. rewrite Htoasts. apply filter_all.
    intros t Ht E. apply Hni. rewrite <- E. by apply list_elem_of_fmap_2.
  - intros before toast after E Ei. rewrite Htoasts, E.
    pose proof (inv_nodup w HI) as Hnd. unfold ids in Hnd.
    rewrite E, fmap_app, fmap_cons in Hnd.
    apply NoDup_app in Hnd as (_ & Hb & Hnd).
    apply NoDup_cons in Hnd as [Ha _].
    rewrite filter_app, filter_cons_False by (intros H; by apply H).
    rewrite !filter_all; [done | |].
    + intros t Ht Et. apply Ha. rewrite Ei, <- Et.
      by apply list_elem_of_fmap_2.
    + intros t Ht Et. apply (Hb (Toast.id t)).
      * by apply list_elem_of_fmap_2.
      * rewrite Et, <- Ei. apply list_elem_of_here.
Qed.

(** The scenario of the tests: two toasts, the first dismissed twice, then an
    id that was never handed out. *)
Lemma dismiss_idempotent_total_witness :
  let cfg := DEFAULT_TOAST_CONFIG in
  let w := steps cfg (initialWorld 0)
             [Show (spreadOptions None "First" Info);
              Show (spreadOptions None "Second" Info)] in
  ids w = ["toastly-0-2"; "toastly-0-1"] ∧
  ∃ w1,
    ToastService.dismiss "toastly-0-1" w = Ok () w1 ∧
    ToastService.dismiss "toastly-0-1" w1 = Ok () w1 ∧
    ids w1 = ["toastly-0-2"] ∧
    ∃ w2,
      ToastService.dismiss "non-existent-id" w1 = Ok () w2 ∧
      ToastService.toasts w2 = ToastService.toasts w1.
Proof.
  intros cfg w. split; [by vm_compute|].
  assert (Hr : reachable cfg w) by apply reachable_steps, reachable_init.
  destruct (dismiss_idempotent_total cfg w "toastly-0-1" Hr)
    as (w1 & H1 & H2 & _ & _ & Hcut).
  exists w1. split_and!; [done..| |].
  - unfold ids. unfold ToastService.toasts in Hcut.
    by rewrite (Hcut [createdToast cfg (spreadOptions None "Second" Info)
                        (worldOf (ToastService.show cfg
                           (spreadOptions None "First" Info) (initialWorld 0)))]
                     (createdToast cfg (spreadOptions None "First" Info)
                        (initialWorld 0))
                     [] eq_refl eq_refl).
  - assert (Hr1 : reachable cfg w1).
    { replace w1 with (step cfg w (Dismiss "toastly-0-1")); [by constructor|].
      unfold step. simpl. by rewrite H1. }
    destruct (dismiss_idempotent_total cfg w1 "non-existent-id" Hr1)
      as (w2 & H3 & _ & _ & Hunknown & _).
    exists w2. split; [done|]. apply Hunknown.
    assert (Hids : ids w1 = ["toastly-0-2"]).
    { rewrite dismiss_eq in H1. injection H1 as <-. by vm_compute. }
    rewrite Hids. by intros ?%list_elem_of_singleton.
Defined.

(* ===================================================================== *)
(** * Lifecycle engine: pausing and resuming a timer *)
(* ===================================================================== *)

Lemma find_app_false {A} (f : A → bool) (l1 l2 : list A) :
  (∀ x, x ∈ l1 → f x = false) → List.find f (l1 ++ l2) = List.find f l2.
Proof.
  induction l1 as [|a l1 IH]; intros Hall; simpl; [done|].
  rewrite (Hall a) by apply list_elem_of_here.
  apply IH. intros x Hx. apply Hall. by apply list_elem_of_further.
Qed.

Lemma find_tracked (l : list Toast.t) t :
  NoDup (Toast.id <$> l) → t ∈ l →
  List.find (λ x, bool_decide (Toast.id x = Toast.id t)) l = Some t.
Proof.
  induction l as [|a l IH]; intros Hnd Hin; [by apply elem_of_nil in Hin|].
  simpl. apply NoDup_cons in Hnd as [Hna Hnd].
  apply elem_of_cons in Hin as [->|Hin].
  - by rewrite bool_decide_eq_true_2.
  - rewrite bool_decide_eq_false_2; [by apply IH|].
    intros E. apply Hna. rewrite E. by apply list_elem_of_fmap_2.
Qed.

Lemma resumeTimer_schedules w i t :
  Inv w →
  List.find (λ t, bool_decide (Toast.id t = i)) (toastsSignal w) = Some t →
  0 < Toast.durationMs t →
  let fresh := {| handle := nextHandle w;
                  due := Z.of_N (clock w) + Toast.durationMs t;
                  target := i |} in
  ∃ w',
    ToastService.resumeTimer i w = Ok () w' ∧
    pending w' = pending w ++ [fresh] ∧
    activeTimers w' !! i = Some (nextHandle w) ∧
    (∀ e, e ∈ pending w → handle e ≠ nextHandle w) ∧
    ToastService.toasts w' = ToastService.toasts w ∧
    ∀ dt, Host.dueEntry (nextHandle w) (worldOf (Host.advance dt w'))
          = if Toast.durationMs t <=? Z.of_N dt then Some fresh else None.
Proof.
  intros HI Ef Hd fresh.
  pose proof (find_id_elem_of _ _ _ Ef) as [Hin Hid].
  assert (Hfresh : ∀ e, e ∈ pending w → handle e ≠ nextHandle w).
  { intros e He. pose proof (inv_handles w HI e He). lia. }
  eexists. split.
  { unfold ToastService.resumeTimer, mbind, M_bind, get. rewrite Ef.
    destruct (Z.ltb_spec 0 (Toast.durationMs t)); [|lia].
    rewrite scheduleAutoDismissIfNeeded_eq.
    destruct (Z.leb_spec (Toast.durationMs t) 0); [lia|]. reflexivity. }
  simpl. rewrite Hid, Z.max_r by lia. split_and!; try done.
  - apply lookup_insert_eq.
  - intros dt. unfold Host.dueEntry. simpl.
    rewrite find_app_false.
    + simpl. rewrite bool_decide_eq_true_2 by done. simpl.
      destruct (Z.leb_spec (Toast.durationMs t) (Z.of_N dt));
        destruct (Z.leb_spec (Z.of_N (clock w) + Toast.durationMs t)
                             (Z.of_N (clock w + dt))); try done; lia.
    + intros e He. rewrite bool_decide_eq_false_2; [done|]. by apply Hfresh.
Qed.

Lemma pauseTimer_fields i w :
  let w1 := worldOf (ToastService.pauseTimer i w) in
  ToastService.pauseTimer i w = Ok () w1 ∧
  toastsSignal w1 = toastsSignal w ∧ clock w1 = clock w ∧
  nextHandle w1 = nextHandle w ∧ activeTimers w1 !! i = None ∧
  pending w1 ⊆ pending w ∧
  ∀ h, activeTimers w !! i = Some h → ∀ e, e ∈ pending w1 → handle e ≠ h.
Proof.
  unfold ToastService.pauseTimer. rewrite clearTimerForToast_eq. simpl.
  destruct (activeTimers w !! i) as [h|] eqn:E; simpl;
    split_and!; try done.
  - apply lookup_delete_eq.
  - apply cancel_subseteq.
  - intros h' [= <-] e He. by apply list_elem_of_filter in He as [? _].
Qed.



(* ===================================================================== *)
(** * Lifecycle engine: the resolved duration *)
(* ===================================================================== *)









(* ===================================================================== *)
(** * Further properties of the engine *)
(* ===================================================================== *)

(** ** The timer table *)

Lemma handle_unique w e e' :
  NoDup (handle <$> pending w) → e ∈ pending w → e' ∈ pending w →
  handle e = handle e' → e = e'.
Proof. apply NoDup_fmap_eq. Qed.

Lemma cancel_elem_of h q e :
  e ∈ Host.cancel h q ↔ e ∈ q ∧ handle e ≠ h.
Proof. unfold Host.cancel. rewrite list_elem_of_filter. tauto. Qed.

Lemma cancel_handles_NoDup h q :
  NoDup (handle <$> q) → NoDup (handle <$> Host.cancel h q).
Proof.
  intros Hnd. eapply sublist_NoDup; [exact Hnd|].
  apply fmap_sublist, sublist_filter.
Qed.

Lemma cancel_all_sublist hs q : foldr Host.cancel q hs `sublist_of` q.
Proof.
  induction hs as [|h hs IH]; simpl; [done|].
  etrans; [apply sublist_filter | exact IH].
Qed.

Lemma ids_filter_ne i j (l : list Toast.t) :
  j ∈ Toast.id <$> l → j ≠ i →
  j ∈ Toast.id <$> filter (λ t, Toast.id t ≠ i) l.
Proof.
  intros (t & -> & Ht)%list_elem_of_fmap Hne.
  apply list_elem_of_fmap_2, list_elem_of_filter. by split.
Qed.

Lemma TimerInv_initialWorld t0 : TimerInv (initialWorld t0).
Proof.
  split; simpl.
  - constructor.
  - intros i h H. by rewrite lookup_empty in H.
  - intros i h H. by rewrite lookup_empty in H.
Qed.

Lemma TimerInv_scheduleAutoDismissIfNeeded t w :
  Inv w → TimerInv w → t ∈ toastsSignal w →
  TimerInv (worldOf (ToastService.scheduleAutoDismissIfNeeded t w)).
Proof.
  intros HI [Hnd Htr Hq] Ht. rewrite scheduleAutoDismissIfNeeded_eq. simpl.
  destruct (Toast.durationMs t <=? 0); [by split|].
  split; simpl.
  - rewrite fmap_app. apply NoDup_app. split_and!; [done| |apply NoDup_singleton].
    intros h (e & -> & He)%list_elem_of_fmap E%list_elem_of_singleton.
    pose proof (inv_handles w HI e He). simpl in *. lia.
  - intros i h. rewrite lookup_insert. case_decide as E.
    + intros _. subst i. by apply list_elem_of_fmap_2.
    + apply Htr.
  - intros i h. rewrite lookup_insert. case_decide as E.
    + intros [= <-]. eexists. split; [apply elem_of_app; right;
        apply list_elem_of_here|]. by simpl.
    + intros Hi. destruct (Hq i h Hi) as (e & He & Hh & Hg).
      exists e. split; [apply elem_of_app; by left | done].
Qed.

(** [dismiss] puts the table in order again even when the queue entry of a
    timer that has just fired is already gone. *)
Lemma TimerInv_dismiss_restores i w :
  NoDup (handle <$> pending w) →
  (∀ j h, j ≠ i → activeTimers w !! j = Some h →
     j ∈ ids w ∧ ∃ e, e ∈ pending w ∧ handle e = h ∧ target e = j) →
  (∀ h e, activeTimers w !! i = Some h → e ∈ pending w → handle e = h →
     target e = i) →
  TimerInv (worldOf (ToastService.dismiss i w)).
Proof.
  intros Hnd Hother Hown. rewrite dismiss_eq, clearTimerForToast_eq. simpl.
  destruct (activeTimers w !! i) as [hi|] eqn:Ei; simpl; split; simpl.
  - by apply cancel_handles_NoDup.
  - intros j h Hj. apply lookup_delete_Some in Hj as [Hne Hj].
    unfold ids. simpl. apply ids_filter_ne; [|done].
    by destruct (Hother j h (not_eq_sym Hne) Hj).
  - intros j h Hj. apply lookup_delete_Some in Hj as [Hne Hj].
    destruct (Hother j h (not_eq_sym Hne) Hj) as (_ & e & He & Hh & Hg).
    exists e. split; [|done]. apply cancel_elem_of. split; [done|].
    intros E. apply Hne. rewrite <- Hg. symmetry. by apply (Hown hi e).
  - done.
  - intros j h Hj. assert (j ≠ i) as Hne by congruence.
    unfold ids. simpl. apply ids_filter_ne; [|done].
    by destruct (Hother j h Hne Hj).
  - intros j h Hj. assert (j ≠ i) as Hne by congruence.
    by destruct (Hother j h Hne Hj).
Qed.

Lemma TimerInv_dismiss i w :
  TimerInv w → TimerInv (worldOf (ToastService.dismiss i w)).
Proof.
  intros [Hnd Htr Hq]. apply TimerInv_dismiss_restores; [done| |].
  - intros j h _ Hj. split; [by apply (Htr j h) | by apply Hq].
  - intros h e Hi He Hh. destruct (Hq i h Hi) as (e0 & He0 & Hh0 & Hg0).
    assert (e = e0) as -> by (apply (handle_unique w); congruence).
    done.
Qed.

Lemma TimerInv_clearTimerForToast i w :
  TimerInv w → TimerInv (worldOf (ToastService.clearTimerForToast i w)).
Proof.
  intros [Hnd Htr Hq]. rewrite clearTimerForToast_eq. simpl.
  destruct (activeTimers w !! i) as [hi|] eqn:Ei; [|by split].
  split; simpl.
  - by apply cancel_handles_NoDup.
  - intros j h Hj. apply lookup_delete_Some in Hj as [Hne Hj].
    by apply (Htr j h).
  - intros j h Hj. apply lookup_delete_Some in Hj as [Hne Hj].
    destruct (Hq j h Hj) as (e & He & Hh & Hg).
    exists e. split; [|done]. apply cancel_elem_of. split; [done|].
    intros E. destruct (Hq i hi Ei) as (e0 & He0 & Hh0 & Hg0).
    assert (e = e0) as -> by (apply (handle_unique w); congruence).
    congruence.
Qed.

Lemma dueEntry_Some h w e :
  Host.dueEntry h w = Some e →
  e ∈ pending w ∧ handle e = h ∧ due e ≤ Z.of_N (clock w).
Proof.
  unfold Host.dueEntry. intros [Hin Hb]%List.find_some.
  apply andb_true_iff in Hb as [Hh Hd].
  apply bool_decide_eq_true in Hh. apply Z.leb_le in Hd.
  split; [by apply list_elem_of_In | done].
Qed.

Lemma TimerInv_timerFires h w :
  TimerInv w → TimerInv (worldOf (ToastService.timerFires h w)).
Proof.
  intros HT. pose proof HT as [Hnd Htr Hq].
  unfold ToastService.timerFires, mbind, M_bind, get.
  destruct (Host.dueEntry h w) as [e|] eqn:Ee; [|done].
  apply dueEntry_Some in Ee as (He & Hh & _).
  unfold Host.clearTimeout, modify.
  apply TimerInv_dismiss_restores; simpl.
  - by apply cancel_handles_NoDup.
  - intros j hj Hne Hj. split; [by apply (Htr j hj)|].
    destruct (Hq j hj Hj) as (ej & Hej & Hhj & Hgj).
    exists ej. split; [|done]. apply cancel_elem_of. split; [done|].
    intros E. apply Hne.
    assert (ej = e) as -> by (apply (handle_unique w); congruence).
    done.
  - intros hi e' Hi [He' _]%cancel_elem_of Hh'.
    destruct (Hq _ hi Hi) as (e0 & He0 & Hh0 & Hg0).
    assert (e' = e0) as -> by (apply (handle_unique w); congruence).
    done.
Qed.

(** The world between [addToast] and the scheduling of the timer. *)
Lemma Inv_added cfg p w :
  Inv w →
  Inv (setToasts
         (if Config.newestOnTop cfg
          then createdToast cfg p w :: toastsSignal w
          else toastsSignal w ++ [createdToast cfg p w])
         (setCounter (toastIdCounter w + 1) w)).
Proof.
  intros [Hids Hnd Htg Hpos Hh Hth].
  set (t := createdToast cfg p w).
  assert (Hfresh : ∀ i, generated (toastIdCounter w) i → i ≠ Toast.id t)
    by (intros i Hi; by apply generated_fresh).
  assert (Hgen : generated (toastIdCounter w + 1) (Toast.id t)).
  { exists (clock w), (toastIdCounter w + 1)%N. split; [done | lia]. }
  assert (Hold : ∀ i, generated (toastIdCounter w) i →
                      generated (toastIdCounter w + 1) i).
  { intros i. apply generated_mono. lia. }
  assert (Hnotin : Toast.id t ∉ ids w).
  { intros (t0 & E & Ht0)%list_elem_of_fmap. by apply (Hfresh _ (Hids t0 Ht0)). }
  assert (Hmem : ∀ x : Toast.t,
            x ∈ (if Config.newestOnTop cfg then t :: toastsSignal w
                 else toastsSignal w ++ [t]) →
            x = t ∨ x ∈ toastsSignal w).
  { intros x. destruct (Config.newestOnTop cfg).
    - intros [->|?]%elem_of_cons; auto.
    - intros [?| ->%list_elem_of_singleton]%elem_of_app; auto. }
  split; simpl.
  - intros x [->|Hx]%Hmem; auto.
  - unfold ids in *. simpl. destruct (Config.newestOnTop cfg); simpl.
    + by apply NoDup_cons.
    + rewrite fmap_app. apply NoDup_app. split_and!; [done| |apply NoDup_singleton].
      intros i Hi ->%list_elem_of_singleton. done.
  - auto.
  - intros e x He [->|Hx]%Hmem Eid; [|eauto].
    exfalso. by apply (Hfresh _ (Htg e He)).
  - done.
  - done.
Qed.

Lemma TimerInv_step cfg w a : Inv w → TimerInv w → TimerInv (step cfg w a).
Proof.
  intros HI HT. unfold step. destruct a as [p|j| |j q|j|j|h|dt]; simpl.
  - unfold mbind, M_bind.
    destruct (ToastService.show cfg p w) as [k w'|e w'] eqn:Es; simpl.
    + rewrite show_eq in Es.
      destruct (ToastService.validatePayload p w); [|done].
      cbv zeta in Es. injection Es as _ <-.
      destruct HT as [Hnd Htr Hq].
      apply TimerInv_scheduleAutoDismissIfNeeded.
      * by apply Inv_added.
      * split; simpl; [done| |done].
        intros i h Hi. specialize (Htr i h Hi). unfold ids in *. simpl.
        destruct (Config.newestOnTop cfg); simpl.
        -- by apply list_elem_of_further.
        -- rewrite fmap_app. apply elem_of_app. by left.
      * simpl. destruct (Config.newestOnTop cfg);
          [apply list_elem_of_here |
           apply elem_of_app; right; apply list_elem_of_here].
    + rewrite show_eq in Es. pose proof (validatePayload_world p w) as Hw.
      destruct (ToastService.validatePayload p w); [done|].
      simpl in Hw. injection Es as _ <-. by subst.
  - by apply TimerInv_dismiss.
  - munfold. simpl. destruct HT as [Hnd Htr Hq]. split; simpl.
    + eapply sublist_NoDup; [exact Hnd|].
      apply fmap_sublist, cancel_all_sublist.
    + intros i h H. by rewrite lookup_empty in H.
    + intros i h H. by rewrite lookup_empty in H.
  - unfold ToastService.updateProgress, mbind, M_bind.
    destruct (ToastService.validateProgressValue q w) as [[] w'|e w'] eqn:E;
      (assert (w' = w) as -> by (munfold; destruct (negb _); by simplify_eq));
      [|done].
    unfold modify. destruct HT as [Hnd Htr Hq]. split; simpl; [done| |done].
    intros i h Hi. unfold ids. simpl. rewrite updateProgress_ids.
    by apply (Htr i h).
  - by apply TimerInv_clearTimerForToast.
  - unfold ToastService.resumeTimer, mbind, M_bind, get.
    destruct (List.find _ (toastsSignal w)) as [t|] eqn:E; [|done].
    destruct (0 <? Toast.durationMs t); [|done].
    apply TimerInv_scheduleAutoDismissIfNeeded; [done..|].
    by apply find_id_elem_of in E as [? _].
  - by apply TimerInv_timerFires.
  - destruct HT; by split.
Qed.

Lemma reachable_TimerInv cfg w : reachable cfg w → TimerInv w.
Proof.
  induction 1 as [t0|w a Hr IH]; [apply TimerInv_initialWorld|].
  apply TimerInv_step; [by apply reachable_Inv with cfg | done].
Qed.

(** ** Identifiers and the size of the collection *)

Lemma formatToastId_prefix now c :
  Js.startsWith (ToastService.formatToastId now c) TOAST_ID_PREFIX = true.
Proof.
  unfold ToastService.formatToastId, TOAST_ID_PREFIX. simpl.
  generalize ("" +:+ Js.stringOfN now +:+ "-" +:+ Js.stringOfN c).
  by intros [].
Qed.

(** X1. In every reachable world the tracked toasts have pairwise distinct
    ids, and every id reads [toastly-<time>-<n>] with [n] between 1 and the
    number of ids handed out so far. *)
Theorem tracked_ids_unique cfg w :
  reachable cfg w →
  NoDup (ids w) ∧
  ∀ i, i ∈ ids w →
    Js.startsWith i TOAST_ID_PREFIX = true ∧
    ∃ now n, i = ToastService.formatToastId now n ∧
             (1 ≤ n ≤ toastIdCounter w)%N.
Proof.
  intros Hr. apply reachable_Inv in Hr as HI. split; [apply HI|].
  intros i (t & -> & Ht)%list_elem_of_fmap.
  destruct (inv_ids w HI t Ht) as (now & n & E & Hn).
  split; [rewrite E; apply formatToastId_prefix | by exists now, n].
Qed.

Lemma tracked_ids_unique_witness :
  let cfg := DEFAULT_TOAST_CONFIG in
  let w := steps cfg (initialWorld 7)
             [Show (Payload.ofMessage "a"); Show (Payload.ofMessage "b");
              Dismiss "toastly-7-1"; Show (Payload.ofMessage "c")] in
  ids w = ["toastly-7-3"; "toastly-7-2"] ∧ NoDup (ids w).
Proof.
  intros cfg w. split; [by vm_compute|].
  apply (tracked_ids_unique cfg w). apply reachable_steps, reachable_init.
Defined.

(** X2. An accepted [show] hands out an id that no tracked toast has, adds
    exactly one toast and keeps every toast that was tracked; the id counter
    moves on by one. *)
Theorem show_adds_one_fresh cfg p w i w' :
  reachable cfg w →
  ToastService.show cfg p w = Ok i w' →
  (i ∉ ids w) ∧
  (i ∈ ids w') ∧
  length (ToastService.toasts w') = S (length (ToastService.toasts w)) ∧
  (∀ t, t ∈ ToastService.toasts w → t ∈ ToastService.toasts w') ∧
  toastIdCounter w' = (toastIdCounter w + 1)%N.
Proof.
  intros Hr Hs. apply reachable_Inv in Hr as HI.
  pose proof (show_toasts cfg p w i w' Hs) as [Hi Ht].
  unfold ToastService.toasts, ids. rewrite Ht. split_and!.
  - rewrite Hi, createdToast_id.
    intros (t & E & Hin)%list_elem_of_fmap.
    by apply (generated_fresh _ (clock w) _ (inv_ids w HI t Hin)).
  - rewrite Hi. apply list_elem_of_fmap_2.
    destruct (Config.newestOnTop cfg);
      [apply list_elem_of_here |
       apply elem_of_app; right; apply list_elem_of_here].
  - destruct (Config.newestOnTop cfg); simpl; [done|].
    rewrite length_app. simpl. lia.
  - intros t Hin. destruct (Config.newestOnTop cfg);
      [by apply list_elem_of_further | apply elem_of_app; by left].
  - rewrite show_eq in Hs. destruct (ToastService.validatePayload p w); [|done].
    cbv zeta in Hs. injection Hs as _ <-.
    rewrite scheduleAutoDismissIfNeeded_eq. simpl. by destruct (_ <=? 0).
Qed.

Lemma show_adds_one_fresh_witness :
  let cfg := configWith 5 false true in
  let w := step cfg (initialWorld 0) (Show (Payload.ofMessage "a")) in
  ∃ i w',
    ToastService.show cfg (Payload.ofMessage "b") w = Ok i w' ∧
    i = "toastly-0-2" ∧ ids w = ["toastly-0-1"] ∧ (i ∉ ids w) ∧
    length (ToastService.toasts w') = 2%nat.
Proof.
  intros cfg w.
  destruct (ToastService.show cfg (Payload.ofMessage "b") w) as [i w'|] eqn:E;
    [|by vm_compute in E].
  assert (Hr : reachable cfg w) by apply reachable_step, reachable_init.
  destruct (show_adds_one_fresh cfg _ w i w' Hr E) as (H1 & _ & H2 & _).
  exists i, w'. split_and!; [done | | by vm_compute | done | by rewrite H2].
  vm_compute in E. by injection E as <- _.
Defined.

(** ** Registered timers *)



(** X17. Dismissing one toast leaves the timers of the others alone: a timer
    registered for another id stays registered and stays in the queue, and
    that toast stays tracked. *)
Theorem dismiss_keeps_other_timers cfg w i j h :
  reachable cfg w →
  j ≠ i →
  activeTimers w !! j = Some h →
  let w' := worldOf (ToastService.dismiss i w) in
  activeTimers w' !! j = Some h ∧
  j ∈ ids w' ∧
  ∀ e, e ∈ pending w → handle e = h → e ∈ pending w'.
Proof.
  intros Hr Hne Hj w'. apply reachable_TimerInv in Hr as HT.
  pose proof HT as [Hnd Htr Hq].
  unfold w'. rewrite dismiss_eq, clearTimerForToast_eq. simpl. unfold ids.
  destruct (activeTimers w !! i) as [hi|] eqn:Ei; simpl.
  - split_and!.
    + by rewrite lookup_delete_ne.
    + apply ids_filter_ne; [by apply (Htr j h) | done].
    + intros e He Hh. apply cancel_elem_of. split; [done|].
      intros E. destruct (Hq i hi Ei) as (e0 & He0 & Hh0 & Hg0).
      destruct (Hq j h Hj) as (e1 & He1 & Hh1 & Hg1).
      assert (e0 = e1) by (apply (handle_unique w); congruence).
      congruence.
  - split_and!; [done | | done].
    apply ids_filter_ne; [by apply (Htr j h) | done].
Qed.

Lemma dismiss_keeps_other_timers_witness :
  let cfg := DEFAULT_TOAST_CONFIG in
  let w := steps cfg (initialWorld 0)
             [Show (Payload.ofMessage "a"); Show (Payload.ofMessage "b")] in
  let w' := worldOf (ToastService.dismiss "toastly-0-1" w) in
  activeTimers w' !! "toastly-0-2" = Some 2%N ∧
  ids w' = ["toastly-0-2"] ∧
  handle <$> pending w' = [2%N].
Proof.
  intros cfg w w'.
  assert (Hr : reachable cfg w) by apply reachable_steps, reachable_init.
  destruct (dismiss_keeps_other_timers cfg w "toastly-0-1" "toastly-0-2" 2%N
              Hr ltac:(done) ltac:(by vm_compute)) as (H1 & _ & _).
  split_and!; [exact H1 | by vm_compute | by vm_compute].
Defined.

(** ** Scheduling, expiry and the queue *)




(** X7. [resumeTimer] does not cancel a timer that is already registered
    for the toast: the earlier queue entry stays queued while the
    registration moves to the new handle, so a later [pauseTimer] does not
    cancel it, and after [dismiss] it is still queued although its toast is
    gone. *)
Theorem resumeTimer_keeps_earlier_timer cfg w t h :
  reachable cfg w →
  t ∈ ToastService.toasts w →
  0 < Toast.durationMs t →
  activeTimers w !! Toast.id t = Some h →
  let i := Toast.id t in
  ∃ e w',
    e ∈ pending w ∧ handle e = h ∧ target e = i ∧
    ToastService.resumeTimer i w = Ok () w' ∧
    e ∈ pending w' ∧
    activeTimers w' !! i = Some (nextHandle w) ∧ nextHandle w ≠ h ∧
    e ∈ pending (worldOf (ToastService.pauseTimer i w')) ∧
    e ∈ pending (worldOf (ToastService.dismiss i w')) ∧
    i ∉ ids (worldOf (ToastService.dismiss i w')).
Proof.
  intros Hr Hin Hd Hi i. apply reachable_Inv in Hr as HI.
  apply reachable_TimerInv in Hr as HT.
  destruct (tinv_queued w HT _ h Hi) as (e & He & Hh & Hg).
  pose proof (find_tracked _ t (inv_nodup w HI) Hin) as Ef. fold i in Ef.
  destruct (resumeTimer_schedules w i t HI Ef Hd)
    as (w' & H1 & H2 & H3 & H4 & _ & _).
  assert (Hne : nextHandle w ≠ h).
  { intros E. apply (H4 e He). congruence. }
  assert (He' : e ∈ pending w') by (rewrite H2; apply elem_of_app; by left).
  exists e, w'. split_and!; try done.
  - unfold ToastService.pauseTimer. rewrite clearTimerForToast_eq, H3. simpl.
    apply cancel_elem_of. split; [done | congruence].
  - rewrite dismiss_eq, clearTimerForToast_eq, H3. simpl.
    apply cancel_elem_of. split; [done | congruence].
  - unfold ids. rewrite dismiss_toasts.
    intros (x & E & Hx)%list_elem_of_fmap.
    by apply list_elem_of_filter in Hx as [Hx _].
Qed.

(** A toast shown for 5000ms and resumed 1000ms later without a pause: the
    timer of the [show] survives the pause that follows and is due at 5000. *)
Lemma resumeTimer_keeps_earlier_timer_witness :
  let cfg := DEFAULT_TOAST_CONFIG in
  let i := "toastly-0-1" in
  let w := steps cfg (initialWorld 0)
             [Show (Payload.ofMessage "x"); Advance 1000; ResumeTimer i;
              PauseTimer i] in
  pending w = [{| handle := 1; due := 5000; target := i |}] ∧
  activeTimers w !! i = None ∧
  ∃ e, e ∈ pending w ∧ handle e = 1%N.
Proof.
  intros cfg i w. split; [by vm_compute|]. split; [by vm_compute|].
  set (w1 := steps cfg (initialWorld 0)
               [Show (Payload.ofMessage "x"); Advance 1000]).
  assert (Hr : reachable cfg w1) by apply reachable_steps, reachable_init.
  assert (Hin : createdToast cfg (Payload.ofMessage "x") (initialWorld 0)
                  ∈ ToastService.toasts w1)
    by (vm_compute; apply list_elem_of_here).
  destruct (resumeTimer_keeps_earlier_timer cfg w1 _ 1%N Hr Hin
              ltac:(by vm_compute) ltac:(by vm_compute))
    as (e & w' & _ & Hh & _ & Hres & _ & _ & _ & Hp & _).
  exists e. split; [|done].
  replace w with (worldOf (ToastService.pauseTimer i w')); [done|].
  unfold w. change (steps cfg (initialWorld 0) _)
    with (step cfg (step cfg w1 (ResumeTimer i)) (PauseTimer i)).
  unfold step at 2. simpl run.
  change (ToastService.resumeTimer i w1 = Ok () w') in Hres.
  by rewrite Hres.
Defined.

(** X9. The timer calls that have nothing to do change nothing:
    [resumeTimer] for an id that is not tracked or for a toast whose duration
    is not positive, [pauseTimer] for an id without a registered timer (so
    for every toast of duration 0), and a second [pauseTimer] in a row. *)
Theorem timer_calls_without_effect cfg w i :
  reachable cfg w →
  (i ∉ ids w → ToastService.resumeTimer i w = Ok () w) ∧
  (∀ t, t ∈ ToastService.toasts w → Toast.id t = i →
        Toast.durationMs t ≤ 0 →
        ToastService.resumeTimer i w = Ok () w ∧
        ToastService.pauseTimer i w = Ok () w) ∧
  (activeTimers w !! i = None → ToastService.pauseTimer i w = Ok () w) ∧
  (∀ w1, ToastService.pauseTimer i w = Ok () w1 →
         ToastService.pauseTimer i w1 = Ok () w1).
Proof.
  intros Hr. apply reachable_Inv in Hr as HI.
  assert (Hnone : activeTimers w !! i = None →
                  ToastService.pauseTimer i w = Ok () w).
  { intros E. unfold ToastService.pauseTimer.
    by rewrite clearTimerForToast_eq, E. }
  split_and!.
  - intros Hni. unfold ToastService.resumeTimer, mbind, M_bind, get.
    destruct (List.find _ (toastsSignal w)) as [t|] eqn:E; [|done].
    apply find_id_elem_of in E as [Hin <-].
    exfalso. apply Hni. by apply list_elem_of_fmap_2.
  - intros t Hin <- Hd. split.
    + unfold ToastService.resumeTimer, mbind, M_bind, get.
      rewrite (find_tracked _ t (inv_nodup w HI) Hin).
      by destruct (Z.ltb_spec 0 (Toast.durationMs t)); [lia|].
    + apply Hnone. destruct (activeTimers w !! Toast.id t) as [h|] eqn:E;
        [|done].
      apply reachable_TimerInv in Hr as HT.
      destruct (tinv_queued w HT _ h E) as (e & He & _ & Hg).
      pose proof (inv_positive w HI e t He Hin (eq_sym Hg)). lia.
  - exact Hnone.
  - intros w1 H1. destruct (pauseTimer_fields i w) as (_ & _ & _ & _ & Hg & _).
    rewrite H1 in Hg. simpl in Hg.
    unfold ToastService.pauseTimer. by rewrite clearTimerForToast_eq, Hg.
Qed.

Lemma timer_calls_without_effect_witness :
  let cfg := DEFAULT_TOAST_CONFIG in
  let w := step cfg (initialWorld 0) (Show (payloadWith "x" (Some 0) None)) in
  ToastService.resumeTimer "toastly-0-1" w = Ok () w ∧
  ToastService.pauseTimer "toastly-0-1" w = Ok () w ∧
  ToastService.resumeTimer "unknown" w = Ok () w.
Proof.
  intros cfg w.
  assert (Hr : reachable cfg w) by apply reachable_step, reachable_init.
  destruct (timer_calls_without_effect cfg w "toastly-0-1" Hr)
    as (_ & Hzero & _).
  destruct (timer_calls_without_effect cfg w "unknown" Hr) as (Hunk & _).
  destruct (Hzero (createdToast cfg (payloadWith "x" (Some 0) None)
                     (initialWorld 0))) as [H1 H2];
    [vm_compute; apply list_elem_of_here | done | by vm_compute |].
  split_and!; [done | done |].
  apply Hunk. vm_compute. by intros ?%list_elem_of_singleton.
Defined.

(** ** Bulk dismissal and destruction *)

Lemma cancel_all_elem_of hs q e :
  e ∈ foldr Host.cancel q hs ↔ e ∈ q ∧ handle e ∉ hs.
Proof.
  induction hs as [|h hs IH]; simpl.
  - split; [intros H; split; [done | apply not_elem_of_nil] | by intros [? _]].
  - rewrite cancel_elem_of, IH, not_elem_of_cons. tauto.
Qed.

Lemma registered_handles (m : gmap string N) h :
  h ∈ (map_to_list m).*2 ↔ ∃ i, m !! i = Some h.
Proof.
  rewrite list_elem_of_fmap. split.
  - intros ([i h'] & -> & Hin). exists i. by apply elem_of_map_to_list.
  - intros (i & Hi). exists (i, h). split; [done|].
    by apply elem_of_map_to_list.
Qed.

(** X5. [dismissAll] never throws; it empties the collection and the timer
    table and takes every registered timer off the host's queue, leaving
    there exactly the entries that were not registered.  Destroying the
    service cancels the same timers and leaves the collection alone. *)
Theorem dismissAll_clears w :
  ∃ w',
    ToastService.dismissAll w = Ok () w' ∧
    ToastService.toasts w' = [] ∧
    activeTimers w' = ∅ ∧
    (∀ e, e ∈ pending w' ↔
          e ∈ pending w ∧ ∀ i, activeTimers w !! i ≠ Some (handle e)) ∧
    ∃ wd,
      onDestroy w = Ok () wd ∧ activeTimers wd = ∅ ∧
      pending wd = pending w' ∧
      ToastService.toasts wd = ToastService.toasts w.
Proof.
  eexists. split; [reflexivity|]. simpl. split_and!; try done.
  - intros e. rewrite cancel_all_elem_of. split; intros [He Hn]; split; try done.
    + intros i Hi. apply Hn, registered_handles. by exists i.
    + intros (i & Hi)%registered_handles. by apply (Hn i).
  - eexists. split; [reflexivity|]. by simpl.
Qed.

(** ** Progress updates *)

Lemma find_map_id (f : Toast.t → Toast.t) j (l : list Toast.t) :
  (∀ t, Toast.id (f t) = Toast.id t) →
  List.find (λ t, bool_decide (Toast.id t = j)) (map f l)
  = f <$> List.find (λ t, bool_decide (Toast.id t = j)) l.
Proof.
  intros Hf. induction l as [|a l IH]; simpl; [done|].
  rewrite Hf. by case_bool_decide.
Qed.

Lemma updateProgress_accepted i q w :
  0 ≤ q ≤ 100 →
  ToastService.updateProgress i q w
  = Ok ()
      (setToasts
         (map (λ toast, if bool_decide (Toast.id toast = i)
                        then Toast.withProgress toast q else toast)
              (toastsSignal w)) w).
Proof.
  intros Hq. unfold ToastService.updateProgress, mbind, M_bind.
  by rewrite validateProgressValue_ok.
Qed.

(** X3. An accepted [updateProgress] on a tracked id stores the new value
    for that toast and for no other; ids, order, durations and timers are as
    before. *)
Theorem updateProgress_sets_progress w i q :
  0 ≤ q ≤ 100 →
  i ∈ ids w →
  ∃ w',
    ToastService.updateProgress i q w = Ok () w' ∧
    storedProgress i w' = Some (Some q) ∧
    (∀ j, j ≠ i → storedProgress j w' = storedProgress j w) ∧
    ids w' = ids w ∧
    Toast.durationMs <$> ToastService.toasts w'
      = Toast.durationMs <$> ToastService.toasts w ∧
    pending w' = pending w ∧ activeTimers w' = activeTimers w.
Proof.
  intros Hq Hi. eexists. split; [by apply updateProgress_accepted|].
  set (f := λ toast, if bool_decide (Toast.id toast = i)
                     then Toast.withProgress toast q else toast).
  assert (Hf : ∀ t, Toast.id (f t) = Toast.id t).
  { intros t. unfold f. by case_bool_decide. }
  unfold storedProgress, ToastService.toasts. simpl.
  split_and!; try done.
  - rewrite (find_map_id f i _ Hf).
    destruct (List.find _ (toastsSignal w)) as [t|] eqn:E.
    + apply find_id_elem_of in E as [_ E]. simpl. unfold f.
      by rewrite bool_decide_eq_true_2.
    + exfalso. apply list_elem_of_fmap in Hi as (t & -> & Ht).
      apply list_elem_of_In in Ht.
      pose proof (List.find_none _ _ E t Ht) as Hb. simpl in Hb.
      by rewrite bool_decide_eq_true_2 in Hb.
  - intros j Hne. rewrite (find_map_id f j _ Hf).
    destruct (List.find _ (toastsSignal w)) as [t|] eqn:E; [|done].
    apply find_id_elem_of in E as [_ E]. simpl. unfold f.
    rewrite bool_decide_eq_false_2; [done | congruence].
  - unfold ids. simpl. apply updateProgress_ids.
  - induction (toastsSignal w) as [|a l IH]; simpl; [done|].
    f_equal; [|exact IH]. unfold f. by case_bool_decide.
Qed.

Lemma updateProgress_sets_progress_witness :
  let cfg := DEFAULT_TOAST_CONFIG in
  let w := steps cfg (initialWorld 0)
             [Show (payloadWith "a" None (Some 0));
              Show (payloadWith "b" None None)] in
  ∃ w',
    ToastService.updateProgress "toastly-0-1" 50 w = Ok () w' ∧
    storedProgress "toastly-0-1" w' = Some (Some 50) ∧
    storedProgress "toastly-0-2" w' = Some None.
Proof.
  intros cfg w.
  destruct (updateProgress_sets_progress w "toastly-0-1" 50)
    as (w' & H1 & H2 & H3 & _); [lia | |].
  - vm_compute. apply list_elem_of_further, list_elem_of_here.
  - exists w'. split_and!; [done..|].
    rewrite (H3 "toastly-0-2") by done. by vm_compute.
Defined.

(** X4. An accepted [updateProgress] on an id that is not tracked is
    dropped without an error: the world is exactly as before. *)
Theorem updateProgress_unknown_id w i q :
  0 ≤ q ≤ 100 →
  i ∉ ids w →
  ToastService.updateProgress i q w = Ok () w.
Proof.
  intros Hq Hni. rewrite updateProgress_accepted by done.
  f_equal. destruct w as [c m l k pq n]. unfold setToasts. simpl in *.
  f_equal. unfold ids in Hni. simpl in Hni.
  induction l as [|a l IH]; simpl; [done|].
  rewrite fmap_cons in Hni. apply not_elem_of_cons in Hni as [Hne Hni].
  rewrite bool_decide_eq_false_2 by congruence. f_equal. by apply IH.
Qed.

Lemma updateProgress_unknown_id_witness :
  let cfg := DEFAULT_TOAST_CONFIG in
  let w := step cfg (initialWorld 0) (Show (payloadWith "a" None (Some 10))) in
  ToastService.updateProgress "toastly-0-9" 50 w = Ok () w.
Proof.
  intros cfg w. apply updateProgress_unknown_id; [lia|].
  vm_compute. by intros ?%list_elem_of_singleton.
Defined.

(** ** Convenience methods, the window and the containers *)

Lemma show_created cfg p w i w' :
  ToastService.show cfg p w = Ok i w' →
  createdToast cfg p w ∈ ToastService.toasts w' ∧
  Toast.id (createdToast cfg p w) = i.
Proof.
  intros Hs. apply show_toasts in Hs as [-> Ht].
  unfold ToastService.toasts. rewrite Ht. split; [|done].
  destruct (Config.newestOnTop cfg);
    [apply list_elem_of_here |
     apply elem_of_app; right; apply list_elem_of_here].
Qed.

(** X11. Each convenience method creates a toast of its own type with the
    given message, whatever the options hold, and with it the ARIA role of
    that type: [warning] and [danger] toasts are announced as [alert],
    [info] and [success] toasts as [status]. *)
Theorem convenience_methods_fix_type cfg m o w i w' :
  (ToastService.info cfg m o w = Ok i w' →
   ∃ t, t ∈ ToastService.toasts w' ∧ Toast.id t = i ∧ Toast.message t = m ∧
        Toast.type t = Info ∧ ToastItemComponent.ariaRole t = "status") ∧
  (ToastService.success cfg m o w = Ok i w' →
   ∃ t, t ∈ ToastService.toasts w' ∧ Toast.id t = i ∧ Toast.message t = m ∧
        Toast.type t = Success ∧ ToastItemComponent.ariaRole t = "status") ∧
  (ToastService.warning cfg m o w = Ok i w' →
   ∃ t, t ∈ ToastService.toasts w' ∧ Toast.id t = i ∧ Toast.message t = m ∧
        Toast.type t = Warning ∧ ToastItemComponent.ariaRole t = "alert") ∧
  (ToastService.danger cfg m o w = Ok i w' →
   ∃ t, t ∈ ToastService.toasts w' ∧ Toast.id t = i ∧ Toast.message t = m ∧
        Toast.type t = Danger ∧ ToastItemComponent.ariaRole t = "alert").
Proof.
  split_and!; intros Hs; apply show_created in Hs as [Hin Hi];
    eexists; (split; [exact Hin|]); by split_and!.
Qed.

Lemma convenience_methods_fix_type_witness :
  let cfg := configWith 5 true true in
  let o := Some (payloadWith "ignored" (Some 2000) None) in
  ∃ i w' t,
    ToastService.danger cfg "Disk full" o (initialWorld 0) = Ok i w' ∧
    t ∈ ToastService.toasts w' ∧ Toast.message t = "Disk full" ∧
    Toast.type t = Danger ∧ ToastItemComponent.ariaRole t = "alert".
Proof.
  intros cfg o.
  destruct (ToastService.danger cfg "Disk full" o (initialWorld 0))
    as [i w'|] eqn:E; [|by vm_compute in E].
  destruct (convenience_methods_fix_type cfg "Disk full" o (initialWorld 0)
              i w') as (_ & _ & _ & Hd).
  destruct (Hd E) as (t & H1 & _ & H2 & H3 & H4).
  by exists i, w', t.
Defined.

(** X12. With a window of at least one toast, a toast that has just been
    shown is visible, under either ordering; its position is the payload's,
    or the global one when the payload gives none; and a container renders
    it exactly when the container's resolved position is that position. *)
Theorem shown_toast_visible_and_routed cfg p w i w' :
  1 ≤ Config.maximumVisibleToasts cfg →
  ToastService.show cfg p w = Ok i w' →
  ∃ t,
    t ∈ ToastService.visibleToasts cfg w' ∧ Toast.id t = i ∧
    Toast.position t = default (Config.position cfg) (Payload.position p) ∧
    ∀ positionInput,
      t ∈ ToastContainerComponent.filteredToasts cfg positionInput w'
      ↔ ToastContainerComponent.resolvedPosition cfg positionInput
        = Toast.position t.
Proof.
  intros Hm Hs. apply show_toasts in Hs as [Hi Ht].
  set (t := createdToast cfg p w) in *.
  assert (Hvis : t ∈ ToastService.visibleToasts cfg w').
  { destruct (Config.newestOnTop cfg) eqn:Hn.
    - rewrite visibleToasts_newest, Ht by (done || lia).
      destruct (Z.to_nat (Config.maximumVisibleToasts cfg)) eqn:E; [lia|].
      apply list_elem_of_here.
    - rewrite visibleToasts_oldest, Ht by (done || lia).
      rewrite drop_app_le by (rewrite length_app; simpl; lia).
      apply elem_of_app. right. apply list_elem_of_here. }
  exists t. split_and!; [done | done | done |].
  intros positionInput. unfold ToastContainerComponent.filteredToasts.
  rewrite list_elem_of_filter. split; [by intros [-> _] | by intros ->].
Qed.

Lemma shown_toast_visible_and_routed_witness :
  let cfg := configWith 1 false true in
  let w := step cfg (initialWorld 0) (Show (Payload.ofMessage "old")) in
  ∃ i w',
    ToastService.show cfg (Payload.ofMessage "new") w = Ok i w' ∧
    Toast.id <$> ToastService.visibleToasts cfg w' = [i] ∧
    Toast.id <$> ToastContainerComponent.filteredToasts cfg None w' = [i] ∧
    ToastContainerComponent.filteredToasts cfg (Some TopLeft) w' = [].
Proof.
  intros cfg w.
  destruct (ToastService.show cfg (Payload.ofMessage "new") w)
    as [i w'|] eqn:E; [|by vm_compute in E].
  destruct (shown_toast_visible_and_routed cfg _ w i w' ltac:(by vm_compute) E)
    as (t & _ & _ & _ & _).
  exists i, w'. split; [done|].
  vm_compute in E. injection E as <- <-. by vm_compute.
Defined.

Lemma showEach_ids_appended cfg calls : ∀ w created w',
  Config.newestOnTop cfg = false →
  showEach cfg calls w = Ok created w' →
  ids w' = ids w ++ created.
Proof.
  induction calls as [|[dt p] calls IH]; intros w created w' Hn; simpl.
  - intros [= <- <-]. by rewrite app_nil_r.
  - unfold mbind, M_bind, Host.advance, modify.
    destruct (ToastService.show cfg p _) as [i w1|] eqn:Es; [|done].
    destruct (showEach cfg calls w1) as [rest w2|] eqn:Er; [|done].
    intros [= <- <-].
    apply show_toasts in Es as [-> Et]. rewrite Hn in Et.
    rewrite (IH w1 rest w2 Hn Er). unfold ids. rewrite Et. simpl.
    by rewrite fmap_app, <- app_assoc.
Qed.

(** X13. With [newestOnTop = false], [show] appends: after a series of
    accepted calls the collection holds the earlier toasts followed by the
    new ones in call order, and with a window of at least one toast the
    visible toasts are the last [maximumVisibleToasts] of them, oldest
    first. *)
Theorem oldest_first_appends cfg calls w created w' :
  Config.newestOnTop cfg = false →
  1 ≤ Config.maximumVisibleToasts cfg →
  showEach cfg calls w = Ok created w' →
  ids w' = ids w ++ created ∧
  Toast.id <$> ToastService.visibleToasts cfg w'
  = drop (length (ids w ++ created)
          - Z.to_nat (Config.maximumVisibleToasts cfg)) (ids w ++ created).
Proof.
  intros Hn Hm Hrun.
  pose proof (showEach_ids_appended cfg calls w created w' Hn Hrun) as Hids.
  split; [done|].
  rewrite visibleToasts_oldest by (done || lia).
  rewrite fmap_drop. fold (ids w'). rewrite <- Hids.
  unfold ids. by rewrite length_fmap.
Qed.

Lemma oldest_first_appends_witness :
  let cfg := configWith 2 false true in
  let calls := (λ m, (10%N, Payload.ofMessage m)) <$> ["a"; "b"; "c"] in
  ∃ w',
    worldOf (showEach cfg calls (initialWorld 0)) = w' ∧
    ids w' = ["toastly-10-1"; "toastly-20-2"; "toastly-30-3"] ∧
    Toast.id <$> ToastService.visibleToasts cfg w'
    = ["toastly-20-2"; "toastly-30-3"].
Proof.
  intros cfg calls.
  destruct (showEach cfg calls (initialWorld 0)) as [created w'|] eqn:E;
    [|by vm_compute in E].
  destruct (oldest_first_appends cfg calls _ created w' eq_refl
              ltac:(by vm_compute) E) as [H1 H2].
  exists w'. split; [done|]. rewrite H2, H1.
  vm_compute in E. injection E as <- _. by vm_compute.
Defined.

Lemma filter_positions_length (l : list Toast.t) :
  sum_list ((λ pos, length (filter (λ t, Toast.position t = pos) l))
            <$> allPositions)
  = length l.
Proof.
  induction l as [|a l IH]; [done|].
  unfold allPositions in *. simpl in *. rewrite !filter_cons.
  destruct (Toast.position a); simpl;
    repeat (case_decide; try done); simpl; lia.
Qed.

(** X10. The containers split the visible toasts by position: every visible
    toast is rendered by the container of its position and by no other, each
    container keeps the order of the visible toasts, the six containers
    together render as many toasts as are visible, and a container without a
    position of its own is the container of the global position. *)
Theorem containers_partition_visible cfg w :
  (∀ pos t,
     t ∈ ToastContainerComponent.filteredToasts cfg (Some pos) w
     ↔ t ∈ ToastService.visibleToasts cfg w ∧ Toast.position t = pos) ∧
  (∀ positionInput,
     ToastContainerComponent.filteredToasts cfg positionInput w
     `sublist_of` ToastService.visibleToasts cfg w) ∧
  sum_list ((λ pos, length (ToastContainerComponent.filteredToasts cfg
                              (Some pos) w)) <$> allPositions)
    = length (ToastService.visibleToasts cfg w) ∧
  ToastContainerComponent.filteredToasts cfg None w
    = ToastContainerComponent.filteredToasts cfg
        (Some (Config.position cfg)) w.
Proof.
  split_and!.
  - intros pos t. unfold ToastContainerComponent.filteredToasts.
    rewrite list_elem_of_filter. simpl. tauto.
  - intros positionInput. apply sublist_filter.
  - apply filter_positions_length.
  - done.
Qed.

(** ** Hovering a rendered toast *)




(* ===================================================================== *)
(** * Further properties of the animation orchestrator and the item *)
(* ===================================================================== *)

(** X14. Without reduced motion and without custom callbacks, the default
    preset is slide, and a slide follows the position: toasts on the left
    come in from 100px to the left, toasts on the right from 100px to the
    right, top-center from above and bottom-center from below, rising from
    opacity 0 to 1; the leave animation runs the same two keyframes
    backwards.  The duration is the requested one, or 300. *)
Theorem slide_follows_position this position preset custom durationMs easing :
  AnimationService.prefersReducedMotion this = false →
  custom ≫= customEnter = None →
  custom ≫= customLeave = None →
  preset = None ∨ preset = Some Slide →
  let away :=
    match position with
    | TopLeft | BottomLeft => TranslateX (-100)
    | TopRight | BottomRight => TranslateX 100
    | TopCenter => TranslateY (-100)
    | BottomCenter => TranslateY 100
    end in
  let hidden := {| opacity := 0; transform := Some away; offset := None |} in
  let shown := {| opacity := 1; transform := Some TranslateNone;
                  offset := None |} in
  let options := {| duration := default 300 durationMs;
                    easing := default ANIMATION_DEFAULT_EASING easing;
                    fill := "forwards" |} in
  AnimationService.runEnterAnimation this position preset custom
    durationMs easing = [Animate [hidden; shown] options] ∧
  AnimationService.runLeaveAnimation this position preset custom
    durationMs easing = [Animate (reverse [hidden; shown]) options].
Proof.
  intros Hrm Hce Hcl Hp.
  unfold AnimationService.runEnterAnimation,
    AnimationService.runLeaveAnimation.
  rewrite Hce, Hcl, Hrm.
  by destruct Hp as [-> | ->]; destruct position.
Qed.

Lemma slide_follows_position_witness :
  AnimationService.runEnterAnimation (AnimationService.create None)
    TopCenter None None (Some 450) None
  = [Animate [ {| opacity := 0; transform := Some (TranslateY (-100));
                  offset := None |};
               {| opacity := 1; transform := Some TranslateNone;
                  offset := None |} ]
             {| duration := 450; easing := ANIMATION_DEFAULT_EASING;
                fill := "forwards" |}].
Proof.
  by destruct (slide_follows_position (AnimationService.create None)
                 TopCenter None None (Some 450) None eq_refl eq_refl eq_refl
                 (or_introl eq_refl)) as [H _].
Defined.

(** A custom callback for a phase replaces everything else in that
    phase, the preset and the reduced-motion fallback included; the two
    phases are independent, and a custom object without a callback for the
    phase is as good as none. *)
Lemma custom_callback_overrides this position preset durationMs easing :
  (∀ callback other,
     AnimationService.runEnterAnimation this position preset
       (Some {| customEnter := Some callback; customLeave := other |})
       durationMs easing = [CallCustom callback]) ∧
  (∀ callback other,
     AnimationService.runLeaveAnimation this position preset
       (Some {| customEnter := other; customLeave := Some callback |})
       durationMs easing = [CallCustom callback]) ∧
  (∀ other,
     AnimationService.runEnterAnimation this position preset
       (Some {| customEnter := None; customLeave := other |})
       durationMs easing
     = AnimationService.runEnterAnimation this position preset None
         durationMs easing) ∧
  (∀ other,
     AnimationService.runLeaveAnimation this position preset
       (Some {| customEnter := other; customLeave := None |})
       durationMs easing
     = AnimationService.runLeaveAnimation this position preset None
         durationMs easing).
Proof. by split_and!. Qed.

(** X15. Without a custom callback a run does one thing to the element.
    When reduced motion is off and the preset is [none] it sets the final
    opacity, 1 on enter and 0 on leave, and animates nothing.  Otherwise it
    plays one animation that fills forwards, lasts 100ms under reduced motion
    and else the requested duration or 300, starts at opacity 0 and ends at 1
    on enter and the reverse on leave; the easing is the requested one or the
    default, except that the bounce enter always uses the bounce easing. *)
Theorem animation_run_shape this position preset custom durationMs easing :
  custom ≫= customEnter = None →
  custom ≫= customLeave = None →
  let reduced := AnimationService.prefersReducedMotion this in
  let entering := AnimationService.runEnterAnimation this position preset
                    custom durationMs easing in
  let leaving := AnimationService.runLeaveAnimation this position preset
                   custom durationMs easing in
  let lasting := if reduced then 100 else default 300 durationMs in
  let requested := default ANIMATION_DEFAULT_EASING easing in
  if negb reduced && match preset with Some NoPreset => true | _ => false end
  then entering = [SetOpacity "1"] ∧ leaving = [SetOpacity "0"]
  else
    ∃ framesIn framesOut,
      entering
      = [Animate framesIn
           {| duration := lasting;
              easing := if negb reduced &&
                           match preset with Some Bounce => true | _ => false end
                        then ANIMATION_BOUNCE_EASING else requested;
              fill := "forwards" |}] ∧
      leaving
      = [Animate framesOut
           {| duration := lasting; easing := requested; fill := "forwards" |}] ∧
      opacity <$> head framesIn = Some 0 ∧
      opacity <$> last framesIn = Some 1 ∧
      opacity <$> head framesOut = Some 1 ∧
      opacity <$> last framesOut = Some 0.
Proof.
  intros Hce Hcl.
  unfold AnimationService.runEnterAnimation,
    AnimationService.runLeaveAnimation.
  rewrite Hce, Hcl.
  destruct (AnimationService.prefersReducedMotion this);
    destruct preset as [[]|]; simpl; try done;
    do 2 eexists; by split_and!.
Qed.

Lemma animation_run_shape_witness :
  AnimationService.runEnterAnimation (AnimationService.create None)
    BottomRight (Some Bounce) None None (Some "ease")
  = [Animate [ {| opacity := 0;
                  transform := Some (Scale ANIMATION_BOUNCE_SCALE_START);
                  offset := None |};
               {| opacity := 1;
                  transform := Some (Scale ANIMATION_BOUNCE_SCALE_OVERSHOOT);
                  offset := Some (7 # 10) |};
               {| opacity := 1; transform := Some (Scale 1);
                  offset := None |} ]
             {| duration := 300; easing := ANIMATION_BOUNCE_EASING;
                fill := "forwards" |}] ∧
  AnimationService.runLeaveAnimation (AnimationService.create None)
    BottomRight (Some NoPreset) None None None
  = [SetOpacity "0"].
Proof.
  pose proof (animation_run_shape (AnimationService.create None) BottomRight
                (Some Bounce) None None (Some "ease") eq_refl eq_refl) as Hb.
  pose proof (animation_run_shape (AnimationService.create None) BottomRight
                (Some NoPreset) None None None eq_refl eq_refl) as Hn.
  simpl in Hn. destruct Hn as [_ Hn]. split; [|exact Hn].
  simpl in Hb. destruct Hb as (framesIn & framesOut & Hin & _).
  injection Hin as <-. reflexivity.
Defined.



(* ===================================================================== *)
(** * What the engine throws *)
(* ===================================================================== *)



